(** * whisper_server.py: streaming segmentation, worker post-processing and
      the one-shot request path

    A shallow embedding of [src/whisper_server.py].  Python [bytes] and
    [bytearray] values are lists of bytes, Python [str] values are lists of
    code points, Python [int]s are [Z], the global dict [audio_buffers] is a
    finite map from strings to byte lists, and the external collaborators
    (the speech model, ffmpeg, [json.loads], the built-ins [str] and [repr],
    the case mapping of [str.lower] outside ASCII) are fields of an
    environment record. *)

From Stdlib Require Import ZArith List Ascii String DecimalString Lia Bool PrimFloat.
From stdpp Require Import base option list strings gmap.

Local Open Scope Z_scope.
#[local] Set Warnings "-register-all".

(** ** Python primitives used by the server *)

Module Py.

(** [len(b)] *)
Definition len {A : Type} (l : list A) : Z := Z.of_nat (length l).

(** Start offset of a slice [b[k:]] or end offset of [b[:k]] on a sequence
    of length [n]: negative offsets count from the end, and both are
    clamped to the sequence. *)
Definition norm_index (k n : Z) : Z :=
  if k <? 0 then Z.max 0 (n + k) else Z.min k n.

(** [b[:k]] *)
Definition slice_to {A : Type} (k : Z) (b : list A) : list A :=
  take (Z.to_nat (norm_index k (len b))) b.

(** [b[k:]] *)
Definition slice_from {A : Type} (k : Z) (b : list A) : list A :=
  drop (Z.to_nat (norm_index k (len b))) b.

(** *** Strings.  A [str] is the sequence of its code points, so that
    [len], [strip] and [lower] count and classify characters as Python
    does.  The string literals of the source are all ASCII; [u] turns one
    into a [str], character by character. *)
Definition str : Type := list N.

Fixpoint u (s : string) : str :=
  match s with
  | EmptyString => []
  | String c s' => N_of_ascii c :: u s'
  end.
Arguments u : simpl never.

(** [a == b] on strings. *)
Fixpoint str_eqb (a b : str) : bool :=
  match a, b with
  | [], [] => true
  | c :: a', d :: b' => (c =? d)%N && str_eqb a' b'
  | _, _ => false
  end.

(** The characters that [str.strip()] removes, which are those of
    [str.isspace]: TAB, LF, VT, FF, CR, FS, GS, RS, US and the space; NEL
    and the no-break space; the Ogham space mark, the spaces U+2000 to
    U+200A, the line and paragraph separators, the narrow no-break space,
    the medium mathematical space and the ideographic space. *)
Definition isspace (c : N) : bool :=
  (((9 <=? c) && (c <=? 13)) || ((28 <=? c) && (c <=? 32))
   || (c =? 133) || (c =? 160) || (c =? 5760)
   || ((8192 <=? c) && (c <=? 8202)) || (c =? 8232) || (c =? 8233)
   || (c =? 8239) || (c =? 8287) || (c =? 12288))%N.

(** [c.isascii()] *)
Definition isascii (c : N) : bool := (c <? 128)%N.

(** [c.lower()] for an ASCII character. *)
Definition lower_char (c : N) : N :=
  if ((65 <=? c) && (c <=? 90))%N then (c + 32)%N else c.

(** [s.lstrip()] *)
Fixpoint lstrip (s : str) : str :=
  match s with
  | [] => []
  | c :: s' => if isspace c then lstrip s' else s
  end.

(** [s.rstrip()] *)
Fixpoint rstrip (s : str) : str :=
  match s with
  | [] => []
  | c :: s' =>
      match rstrip s' with
      | [] => if isspace c then [] else [c]
      | r => c :: r
      end
  end.

(** [s.strip()] *)
Definition strip (s : str) : str := rstrip (lstrip s).

(** [s.startswith(prefix)] *)
Fixpoint startswith (prefix s : str) : bool :=
  match prefix, s with
  | [], _ => true
  | c :: prefix', d :: s' => (c =? d)%N && startswith prefix' s'
  | _ :: _, [] => false
  end.

(** [pattern in s] on strings: [pattern] occurs as a substring of [s]. *)
Fixpoint contains (pattern s : str) : bool :=
  startswith pattern s ||
  match s with
  | [] => false
  | _ :: s' => contains pattern s'
  end.

(** [sep.join(parts)] *)
Fixpoint join (sep : str) (parts : list str) : str :=
  match parts with
  | [] => []
  | [p] => p
  | p :: ps => p ++ sep ++ join sep ps
  end.

(** [str(n)] for an [int]. *)
Definition str_int (n : Z) : str :=
  u (DecimalString.NilZero.string_of_int (Z.to_int n)).

(** [s[:k]] for [0 <= k]. *)
Definition str_prefix (k : nat) (s : str) : str := take k s.

(** *** Values.  What [json.loads] produces and [json.dumps] consumes, which
    is also what the server passes around as results. *)
Inductive pyval : Type :=
| PyNone
| PyBool (b : bool)
| PyInt (z : Z)
| PyFloat (f : float)
| PyStr (s : str)
| PyList (l : list pyval)
| PyDict (items : list (str * pyval)).

(** Truth value of an object, as [if v:] and [not v] test it. *)
Definition truthy (v : pyval) : bool :=
  match v with
  | PyNone => false
  | PyBool b => b
  | PyInt z => negb (z =? 0)
  | PyFloat f => negb (PrimFloat.eqb f 0%float)
  | PyStr s => negb (str_eqb s [])
  | PyList l => match l with [] => false | _ => true end
  | PyDict items => match items with [] => false | _ => true end
  end.

(** [type(v).__name__] *)
Definition type_name (v : pyval) : str :=
  match v with
  | PyNone => u "NoneType"
  | PyBool _ => u "bool"
  | PyInt _ => u "int"
  | PyFloat _ => u "float"
  | PyStr _ => u "str"
  | PyList _ => u "list"
  | PyDict _ => u "dict"
  end.

(** Lookup in the items of a dict. *)
Fixpoint dict_lookup (key : str) (items : list (str * pyval)) : option pyval :=
  match items with
  | [] => None
  | (k, v) :: items' => if str_eqb k key then Some v else dict_lookup key items'
  end.

(** Exceptions the modelled code can see.  [JSONDecodeError] is what
    [json.loads] raises on text that is not JSON, [RecursionError] what it
    raises on text nested too deeply, [StructError] is the [struct.error] of
    the [wave] module, [OverflowError] and [MemoryError] are what a read of
    a size that cannot be allocated raises, and [ExternalError] is an
    exception raised inside a collaborator (the model, ffmpeg's launcher). *)
Inductive exn : Type :=
| ValueError (msg : str)
| AttributeError (msg : str)
| KeyError (key : str)
| TimeoutError
| JSONDecodeError (msg : str)
| RecursionError (msg : str)
| StructError
| OverflowError (msg : str)
| MemoryError
| PlainException (msg : str)
| ExternalError (msg : str).

(** The result of running a piece of Python: a value or a raised exception. *)
Inductive outcome (A : Type) : Type :=
| Returned (a : A)
| Raised (e : exn).
Arguments Returned {A} a.
Arguments Raised {A} e.

(** [v.get(key, default)]: only a dict has the method. *)
Definition get (v : pyval) (key : str) (default : pyval) : outcome pyval :=
  match v with
  | PyDict items => Returned (from_option id default (dict_lookup key items))
  | _ => Raised (AttributeError
                   (u "'" ++ type_name v ++ u "' object has no attribute 'get'"))
  end.

End Py.
Import Py.

(** ** Module constants (lines 58-77) *)

Definition SAMPLE_RATE : Z := 16000.
Definition MIN_CHUNK_SIZE : Z := 48000.
Definition OVERLAP_SIZE : Z := 16000.
Definition MAX_BUFFER_SIZE : Z := 160000.

(** ** The chunking code of [handle_websocket] (lines 502-528)

    The three steps below are the body of the [isinstance(message, bytes)]
    branch once [buffer_key] is known: extend the bytearray, trim it to
    [MAX_BUFFER_SIZE], then run the [while] loop.  Besides the chunks handed
    to [asyncio.create_task], the model records which branch was taken:
    [EvOverflow excess] is the [logger.warning] of line 511, [EvCleared] marks
    the [else] branch of line 525. *)

Inductive event : Type :=
| EvOverflow (excess : Z)
| EvChunk (chunk : list Byte.byte)
| EvCleared.

(** Lines 507-511. *)
Definition trim_overflow (buf : list Byte.byte) : list event * list Byte.byte :=
  if MAX_BUFFER_SIZE <? len buf then
    let excess := len buf - MAX_BUFFER_SIZE in
    ([EvOverflow excess], slice_from excess buf)
  else ([], buf).

(** Lines 519-525, the end of one turn of the loop: the mark of the branch
    taken and the bytearray kept for the next turn. *)
Definition after_chunk (buf : list Byte.byte) : list event * list Byte.byte :=
  if MIN_CHUNK_SIZE <? len buf
  then ([], slice_from (MIN_CHUNK_SIZE - OVERLAP_SIZE) buf)
  else ([EvCleared], []).

(** Lines 514-528, the [while] loop.  [fuel] bounds the number of iterations;
    [None] means the bound was reached with the loop condition still true. *)
Fixpoint extract_chunks (fuel : nat) (buf : list Byte.byte)
  : option (list event * list Byte.byte) :=
  if len buf <? MIN_CHUNK_SIZE then Some ([], buf)
  else
    match fuel with
    | O => None
    | S fuel' =>
        let chunk := slice_to MIN_CHUNK_SIZE buf in
        let '(mark, buf') := after_chunk buf in
        match extract_chunks fuel' buf' with
        | Some (evs, rest) => Some (EvChunk chunk :: mark ++ evs, rest)
        | None => None
        end
    end.

(** The loop run on a buffer: one iteration per byte is more than enough. *)
Definition drain (buf : list Byte.byte) : option (list event * list Byte.byte) :=
  extract_chunks (length buf) buf.

(** Lines 504-528: what a binary message does to the bytearray stored under
    the current key. *)
Definition feed (buf message : list Byte.byte)
  : option (list event * list Byte.byte) :=
  let '(ov, kept) := trim_overflow (buf ++ message) in
  match drain kept with
  | Some (evs, rest) => Some (ov ++ evs, rest)
  | None => None
  end.

(** The chunks among the events, in the order they were handed out. *)
Fixpoint chunks_of (evs : list event) : list (list Byte.byte) :=
  match evs with
  | [] => []
  | EvChunk c :: evs' => c :: chunks_of evs'
  | _ :: evs' => chunks_of evs'
  end.

(** Feeding a sequence of binary messages to one bytearray. *)
Fixpoint feed_all (buf : list Byte.byte) (messages : list (list Byte.byte))
  : option (list event * list Byte.byte) :=
  match messages with
  | [] => Some ([], buf)
  | m :: ms =>
      match feed buf m with
      | Some (evs, buf') =>
          match feed_all buf' ms with
          | Some (evs', buf'') => Some (evs ++ evs', buf'')
          | None => None
          end
      | None => None
      end
  end.

(** ** The worker: [pcm_bytes_to_wav], [convert_webm_to_wav] and
    [transcribe_audio_chunk] (lines 102-354) *)

(** A segment yielded by [model.transcribe].  [no_speech_prob] is [None] when
    the object has no such attribute ([hasattr] is false). *)
Record Segment : Type := {
  text : str;
  no_speech_prob : option float
}.

(** The [info] object returned with the segments; [language] is [None] when
    the attribute is missing. *)
Record Info : Type := { language : option str }.

(** The file handed to the model: written by the [wave] module from PCM
    frames, or produced by ffmpeg at [path]. *)
Inductive audio_file : Type :=
| WaveFile (frames : list Byte.byte)
| FfmpegFile (path : str) (content : list Byte.byte).

(** What [subprocess.run] reports for one ffmpeg run, with the output file
    as found afterwards ([None]: it does not exist). *)
Record ffmpeg_run : Type := {
  returncode : Z;
  stderr : str;
  wav_path : str;
  output : option (list Byte.byte)
}.

(** The collaborators.  [model_transcribe] stands for [model.transcribe]: it
    raises, or returns the [info] object and the segments, which are a
    generator whose iteration may raise in its turn; [wave_open] is the
    re-check of the file with [wave.open] (its error text, if it fails);
    [json_loads] is [json.loads], which returns a value or raises;
    [struct_error_text] is the text of the [struct.error] that the [wave]
    module raises for data that does not fit a WAV header; [py_str] and
    [py_repr] are the built-ins [str] and [repr]; [py_lower] is [str.lower]
    with the case mapping of the interpreter's Unicode database, consulted
    for text that is not all ASCII; [maxsize] is [sys.maxsize], the largest
    size of a Python object, and [alloc_error] is the exception, if any, with
    which the interpreter refuses to allocate a read buffer of a given size.
    The model is taken to be loaded, and the temporary files to be written
    and read back as asked. *)
Record Env : Type := {
  model_transcribe : audio_file -> outcome (outcome (list Segment) * Info);
  run_ffmpeg : list Byte.byte -> outcome ffmpeg_run;
  wave_open : audio_file -> option str;
  json_loads : str -> outcome pyval;
  struct_error_text : str;
  py_str : pyval -> str;
  py_repr : str -> str;
  py_lower : str -> str;
  maxsize : Z;
  alloc_error : Z -> option exn
}.

(** Calls made to the collaborators, in order. *)
Inductive call : Type :=
| CallFfmpeg (data : list Byte.byte)
| CallModel (file : audio_file).

(** Code that may call the collaborators and may raise: the calls made, and
    how it ended. *)
Definition M (A : Type) : Type := list call * outcome A.

Definition ret {A : Type} (a : A) : M A := ([], Returned a).
Definition raise {A : Type} (e : exn) : M A := ([], Raised e).
Definition lift {A : Type} (o : outcome A) : M A := ([], o).
Definition bind {A B : Type} (m : M A) (k : A -> M B) : M B :=
  match m with
  | (calls, Returned a) => let '(calls', r) := k a in (calls ++ calls', r)
  | (calls, Raised e) => (calls, Raised e)
  end.

Declare Scope py_scope.
Delimit Scope py_scope with py.
Notation "'do' x <- m ; k" := (bind m (fun x => k))
  (at level 10, x name, m at level 100, k at level 200, only parsing) : py_scope.
Notation "'do' ' p <- m ; k" := (bind m (fun x => let 'p := x in k))
  (at level 10, p pattern, m at level 100, k at level 200, only parsing) : py_scope.
Local Open Scope py_scope.

(** [s.lower()]: ASCII text is lowered letter by letter, any other text by
    the case mapping of the interpreter. *)
Definition lower (env : Env) (s : str) : str :=
  if forallb isascii s then map lower_char s else py_lower env s.

(** [str(e)] *)
Definition str_exn (env : Env) (e : exn) : str :=
  match e with
  | ValueError msg | AttributeError msg | PlainException msg | ExternalError msg => msg
  | JSONDecodeError msg | RecursionError msg | OverflowError msg => msg
  | KeyError key => py_repr env key
  | TimeoutError | MemoryError => []
  | StructError => struct_error_text env
  end.

(** The first data length that no longer fits the 32-bit size field of a
    WAV header, which holds 36 more than the length: [2^32 - 36]. *)
Definition WAV_DATA_LIMIT : Z := 4294967260.

(** Lines 102-190.  The odd trailing byte is cut before the frames are
    written; [writeframes] raises when the frames do not fit the header. *)
Definition pcm_bytes_to_wav (pcm_bytes : list Byte.byte) : outcome audio_file :=
  let min_bytes := 2000 in
  if len pcm_bytes <? min_bytes then
    Raised (ValueError (u "Audio data too small: " ++ str_int (len pcm_bytes)
                        ++ u " bytes (minimum: " ++ str_int min_bytes ++ u ")"))
  else
    let pcm_bytes :=
      if negb (len pcm_bytes mod 2 =? 0) then slice_to (-1) pcm_bytes else pcm_bytes in
    let num_samples := len pcm_bytes / 2 in
    if num_samples =? 0 then Raised (ValueError (u "No audio samples in PCM data"))
    else if WAV_DATA_LIMIT <=? len pcm_bytes then Raised StructError
    else Returned (WaveFile pcm_bytes).

(** Lines 192-252. *)
Definition convert_webm_to_wav (env : Env) (webm_data : list Byte.byte) : M audio_file :=
  do result <- ([CallFfmpeg webm_data], run_ffmpeg env webm_data) ;
  if negb (returncode result =? 0) then
    raise (PlainException (u "FFmpeg conversion failed: " ++ str_prefix 200 (stderr result)))
  else
    match output result with
    | None => raise (PlainException (u "FFmpeg conversion failed: empty output file"))
    | Some content =>
        if len content =? 0
        then raise (PlainException (u "FFmpeg conversion failed: empty output file"))
        else ret (FfmpegFile (wav_path result) content)
    end.

(** Size on disk of the file handed to the model: a 44-byte header before the
    frames of a file written by [wave]. *)
Definition file_size (f : audio_file) : Z :=
  match f with
  | WaveFile frames => 44 + len frames
  | FfmpegFile _ content => len content
  end.

(** The path printed when the file is too small.  A file written by [wave]
    is never too small, so its temporary name is never printed and is left
    empty here. *)
Definition file_path (f : audio_file) : str :=
  match f with
  | WaveFile _ => []
  | FfmpegFile path _ => path
  end.

(** Line 316. *)
Definition hallucination_patterns : list str :=
  [ u "thank you"; u "thanks"; u "subscribe"; u "please subscribe";
    u "like and subscribe"; u "thank you for watching";
    u "thanks for watching"; u "please like and subscribe" ].

(** Lines 310-327, the body of the [for] loop: the new value of
    [text_parts] after one segment. *)
Definition collect_segment (env : Env) (text_parts : list str) (segment : Segment)
  : list str :=
  let segment_text := strip (text segment) in
  if truthy (PyStr segment_text) && (2 <=? len segment_text) then
    let segment_lower := lower env segment_text in
    if match no_speech_prob segment with
       | Some p => PrimFloat.ltb 0.5%float p
       | None => false
       end
    then text_parts
    else
      if negb (existsb (fun pattern => contains pattern segment_lower) hallucination_patterns)
      then text_parts ++ [segment_text]
      else text_parts
  else text_parts.

(** Lines 308-329. *)
Definition collect_text (env : Env) (segments : list Segment) : str :=
  let text_parts := fold_left (collect_segment env) segments [] in
  strip (join (u " ") text_parts).

(** Lines 278-305: the call of the model and the handling of its failure. *)
Definition call_model (env : Env) (wav : audio_file)
  : M (outcome (list Segment) * Info) :=
  match model_transcribe env wav with
  | Returned r => ([CallModel wav], Returned r)
  | Raised transcribe_error =>
      let error_msg := str_exn env transcribe_error in
      if contains (u "Invalid data") error_msg || contains (u "Errno") error_msg then
        match wave_open env wav with
        | Some wav_error =>
            ([CallModel wav], Raised (ValueError (u "Invalid WAV file format: " ++ wav_error)))
        | None => ([CallModel wav], Raised transcribe_error)
        end
      else ([CallModel wav], Raised transcribe_error)
  end.

(** Lines 254-354.  The result is [PyNone] or a dict with the keys [text] and
    [language]. *)
Definition transcribe_audio_chunk (env : Env) (audio_data : list Byte.byte)
    (is_webm : bool) : M pyval :=
  do wav <- (if is_webm then convert_webm_to_wav env audio_data
             else lift (pcm_bytes_to_wav audio_data)) ;
  (if file_size wav <? 44 then
     raise (ValueError (u "WAV file too small (likely corrupted): " ++ file_path wav
                        ++ u ", size: " ++ str_int (file_size wav) ++ u " bytes"))
   else
     do '(iteration, info) <- call_model env wav ;
     do segments <- lift iteration ;
     let full_text := collect_text env segments in
     if truthy (PyStr full_text) then
       ret (PyDict [ (u "text", PyStr full_text);
                     (u "language", PyStr (from_option id (u "en") (language info))) ])
     else ret PyNone).

(** [try: body except Exception as e: handler(e)] *)
Definition try_except {A : Type} (body : M A) (handler : exn -> A) : list call * A :=
  match body with
  | (calls, Returned a) => (calls, a)
  | (calls, Raised e) => (calls, handler e)
  end.

(** [v.strip()]: a method of [str] only. *)
Definition strip_method (v : pyval) : outcome pyval :=
  match v with
  | PyStr s => Returned (PyStr (strip s))
  | _ => Raised (AttributeError
                   (u "'" ++ type_name v ++ u "' object has no attribute 'strip'"))
  end.

(** ** The one-shot path: [transcribe_audio_request] (lines 356-393) *)

Definition transcribe_audio_request (env : Env) (audio_data : list Byte.byte)
    (is_webm : bool) : list call * pyval :=
  try_except
    (let min_size := if negb is_webm then 2000 else 1000 in
     if len audio_data <? min_size then
       ret (PyDict [ (u "success", PyBool true); (u "text", PyStr (u "")); (u "language", PyStr (u "en")) ])
     else
       do result <- transcribe_audio_chunk env audio_data is_webm ;
       match result with
       | PyNone =>
           ret (PyDict [ (u "success", PyBool true); (u "text", PyStr (u ""));
                         (u "language", PyStr (u "en")) ])
       | _ =>
           do t <- lift (get result (u "text") (PyStr (u ""))) ;
           do text <- lift (strip_method t) ;
           do lang <- lift (get result (u "language") (PyStr (u "en"))) ;
           ret (PyDict [ (u "success", PyBool true); (u "text", text); (u "language", lang) ])
       end)
    (fun e =>
       PyDict [ (u "success", PyBool false); (u "error", PyStr (str_exn env e));
                (u "text", PyStr (u "")) ]).

(** ** [WhisperHTTPHandler.handle_transcribe] (lines 607-664) *)

(** A POST to [/transcribe]: the [Content-Type] header (empty when absent),
    what [int] makes of the [Content-Length] header (0 when absent; it raises
    when the header is not a number), and the bytes that follow the
    headers. *)
Record request : Type := {
  content_type : str;
  content_length : outcome Z;
  rfile : list Byte.byte
}.

Inductive response : Type :=
| SendError (code : Z) (message : str)
| SendJson (code : Z) (body : pyval).

Fixpoint bytes_eqb (a b : list Byte.byte) : bool :=
  match a, b with
  | [], [] => true
  | x :: a', y :: b' => Byte.eqb x y && bytes_eqb a' b'
  | _, _ => false
  end.

(** [self.rfile.read(n)] on the buffered reader of the connection: at most
    [n] bytes, everything for [-1], and an error below that.  The reader
    takes [n] as an index and allocates [n] bytes before it reads, so it
    also fails on a size that is no index or that it cannot allocate,
    whatever the stream holds. *)
Definition read (env : Env) (n : Z) (stream : list Byte.byte)
  : outcome (list Byte.byte) :=
  if (n <? - maxsize env - 1) || (maxsize env <? n) then
    Raised (OverflowError (u "cannot fit 'int' into an index-sized integer"))
  else if n <? -1 then Raised (ValueError (u "read length must be non-negative or -1"))
  else if n =? -1 then Returned stream
  else
    match alloc_error env n with
    | Some e => Raised e
    | None => Returned (take (Z.to_nat n) stream)
    end.

(** Lines 621-630. *)
Definition sniff_webm (env : Env) (content_type : str) (audio_data : list Byte.byte)
  : bool :=
  if 4 <=? len audio_data then
    if bytes_eqb (slice_to 4 audio_data) [Byte.x1a; Byte.x45; Byte.xdf; Byte.xa3] then true
    else if contains (u "webm") (lower env content_type) then true
    else false
  else false.

(** Lines 662-664, the outer handler: any exception raised before the job
    is submitted is answered with status 500 and no JSON body. *)
Definition internal_error (env : Env) (e : exn) : response :=
  SendError 500 (u "Internal server error: " ++ str_exn env e).

(** [in_time] tells whether [future.result(timeout=30)] returned; otherwise it
    raised the executor's timeout, whose [str] is empty.  The submitted job
    runs in either case. *)
Definition handle_transcribe (env : Env) (req : request) (in_time : bool)
  : list call * response :=
  match content_length req with
  | Raised e => ([], internal_error env e)
  | Returned content_length =>
      if content_length =? 0 then ([], SendError 400 (u "No audio data provided"))
      else
        match read env content_length (rfile req) with
        | Raised e => ([], internal_error env e)
        | Returned audio_data =>
            let is_webm := sniff_webm env (content_type req) audio_data in
            let '(calls, result) := transcribe_audio_request env audio_data is_webm in
            if in_time then (calls, SendJson 200 result)
            else
              (calls, SendJson 500
                        (PyDict [ (u "success", PyBool false);
                                  (u "error", PyStr (str_exn env TimeoutError));
                                  (u "text", PyStr (u "")) ]))
        end
  end.

(** ** The streaming path: [process_audio_chunk] (lines 395-440) *)

(** The messages written to the websocket for one chunk.  A failing
    [websocket.send] is swallowed by the code; sends are taken to succeed. *)
Definition process_audio_chunk (env : Env) (source_type : pyval)
    (audio_chunk : list Byte.byte) : list call * list pyval :=
  try_except
    (do result <- transcribe_audio_chunk env audio_chunk false ;
     do probe <- lift (get result (u "text") PyNone) ;
     do text <- (if truthy probe
                 then do t <- lift (get result (u "text") (PyStr (u ""))) ; lift (strip_method t)
                 else ret (PyStr (u ""))) ;
     if truthy text then
       do lang <- lift (get result (u "language") (PyStr (u "en"))) ;
       ret [ PyDict [ (u "type", PyStr (u "transcription")); (u "source", source_type);
                      (u "text", text); (u "language", lang) ] ]
     else
       ret [ PyDict [ (u "type", PyStr (u "silence")); (u "source", source_type) ] ])
    (fun e =>
       [ PyDict [ (u "type", PyStr (u "error")); (u "source", source_type);
                  (u "message", PyStr (str_exn env e)) ] ]).

(** ** [handle_websocket] (lines 442-574) *)

Definition MODEL_NAME : str := u "small.en".

Inductive ws_message : Type :=
| TextMessage (s : str)
| BinaryMessage (b : list Byte.byte).

(** What handling a message does besides updating the state: messages
    written to the websocket and tasks created for chunks. *)
Inductive action : Type :=
| Send (payload : pyval)
| CreateTask (source : pyval) (chunk : list Byte.byte).

(** The two locals of [handle_websocket] that survive from one message to
    the next. *)
Record locals : Type := {
  source_type : pyval;
  buffer_key : option str
}.

Definition initial_locals : locals :=
  {| source_type := PyNone; buffer_key := None |}.

(** The value of an f-string field [{v}]. *)
Definition fmt (env : Env) (v : pyval) : str :=
  match v with
  | PyStr s => s
  | PyNone => u "None"
  | PyBool true => u "True"
  | PyBool false => u "False"
  | PyInt z => str_int z
  | _ => py_str env v
  end.

(** [f"{client_address}_{source_type}"] *)
Definition make_key (env : Env) (client_address : str) (source : pyval) : str :=
  client_address ++ u "_" ++ fmt env source.

(** [v == s] for a string literal [s]. *)
Definition eq_str (v : pyval) (s : str) : bool :=
  match v with
  | PyStr s' => str_eqb s' s
  | _ => false
  end.

(** [if buffer_key:] *)
Definition key_set (k : option str) : option str :=
  match k with
  | Some key => if str_eqb key [] then None else Some key
  | None => None
  end.

(** Lines 462-492: a text message whose JSON was decoded to [data]. *)
Definition on_control (env : Env) (client_address : str)
    (loc : locals) (audio_buffers : gmap str (list Byte.byte)) (data : pyval)
  : outcome (locals * gmap str (list Byte.byte) * list action) :=
  match get data (u "type") PyNone with
  | Raised e => Raised e
  | Returned msg_type =>
      if eq_str msg_type (u "start") then
        match get data (u "source") (PyStr (u "microphone")) with
        | Raised e => Raised e
        | Returned source =>
            let key := make_key env client_address source in
            Returned ({| source_type := source; buffer_key := Some key |},
                      <[key := []]> audio_buffers,
                      [Send (PyDict [ (u "type", PyStr (u "started")); (u "source", source) ])])
        end
      else if eq_str msg_type (u "stop") then
        let audio_buffers' :=
          match key_set (buffer_key loc) with
          | Some key =>
              match audio_buffers !! key with
              | Some _ => delete key audio_buffers
              | None => audio_buffers
              end
          | None => audio_buffers
          end in
        Returned (loc, audio_buffers', [Send (PyDict [ (u "type", PyStr (u "stopped")) ])])
      else if eq_str msg_type (u "ping") then
        Returned (loc, audio_buffers, [Send (PyDict [ (u "type", PyStr (u "pong")) ])])
      else Returned (loc, audio_buffers, [])
  end.

(** Lines 495-528: a binary message.  [None] only if the chunk loop ran out
    of fuel. *)
Definition on_binary (env : Env) (client_address : str)
    (loc : locals) (audio_buffers : gmap str (list Byte.byte)) (message : list Byte.byte)
  : option (outcome (locals * gmap str (list Byte.byte) * list action)) :=
  let '(loc, audio_buffers) :=
    if negb (truthy (source_type loc)) then
      let source := PyStr (u "microphone") in
      let key := make_key env client_address source in
      ({| source_type := source; buffer_key := Some key |},
       match audio_buffers !! key with
       | Some _ => audio_buffers
       | None => <[key := []]> audio_buffers
       end)
    else (loc, audio_buffers) in
  match key_set (buffer_key loc) with
  | Some key =>
      match audio_buffers !! key with
      | None => Some (Raised (KeyError key))
      | Some buf =>
          match feed buf message with
          | Some (evs, rest) =>
              Some (Returned (loc, <[key := rest]> audio_buffers,
                              map (CreateTask (source_type loc)) (chunks_of evs)))
          | None => None
          end
      end
  | None => Some (Returned (loc, audio_buffers, []))
  end.

(** Lines 460-565: the body of the [async for] loop with its two handlers.
    [json.JSONDecodeError] on a text message finds [isinstance(message,
    bytes)] false and does nothing; any other exception, also one of
    [json.loads], is reported to the client.  Every exception of the body is
    raised before the body changes [audio_buffers] or the locals, so the
    state of the message's arrival is the state kept. *)
Definition on_message (env : Env) (client_address : str)
    (loc : locals) (audio_buffers : gmap str (list Byte.byte)) (message : ws_message)
  : option (locals * gmap str (list Byte.byte) * list action) :=
  let report (e : exn) :=
    (loc, audio_buffers,
     [Send (PyDict [ (u "type", PyStr (u "error")); (u "message", PyStr (str_exn env e)) ])]) in
  match message with
  | TextMessage s =>
      match json_loads env s with
      | Raised (JSONDecodeError _) => Some (loc, audio_buffers, [])
      | Raised e => Some (report e)
      | Returned data =>
          match on_control env client_address loc audio_buffers data with
          | Returned r => Some r
          | Raised e => Some (report e)
          end
      end
  | BinaryMessage b =>
      match on_binary env client_address loc audio_buffers b with
      | Some (Returned r) => Some r
      | Some (Raised e) => Some (report e)
      | None => None
      end
  end.

(** The loop over the messages received before the client goes away. *)
Fixpoint receive (env : Env) (client_address : str)
    (loc : locals) (audio_buffers : gmap str (list Byte.byte))
    (messages : list ws_message)
  : option (locals * gmap str (list Byte.byte) * list action) :=
  match messages with
  | [] => Some (loc, audio_buffers, [])
  | m :: ms =>
      match on_message env client_address loc audio_buffers m with
      | Some (loc', bufs', acts) =>
          match receive env client_address loc' bufs' ms with
          | Some (loc'', bufs'', acts') => Some (loc'', bufs'', acts ++ acts')
          | None => None
          end
      | None => None
      end
  end.

(** Lines 571-574, the [finally] block run at disconnect. *)
Definition cleanup (loc : locals) (audio_buffers : gmap str (list Byte.byte))
  : gmap str (list Byte.byte) :=
  match key_set (buffer_key loc) with
  | Some key =>
      match audio_buffers !! key with
      | Some _ => delete key audio_buffers
      | None => audio_buffers
      end
  | None => audio_buffers
  end.

(** One connection from its opening to the disconnect: the table afterwards
    and everything sent or spawned. *)
Definition handle_websocket (env : Env) (client_address : str)
    (audio_buffers : gmap str (list Byte.byte)) (messages : list ws_message)
  : option (gmap str (list Byte.byte) * list action) :=
  let welcome :=
    Send (PyDict [ (u "type", PyStr (u "connected"));
                   (u "message", PyStr (u "WebSocket connection established"));
                   (u "model", PyStr MODEL_NAME); (u "streaming", PyBool true) ]) in
  match receive env client_address initial_locals audio_buffers messages with
  | Some (loc, bufs, acts) => Some (cleanup loc bufs, welcome :: acts)
  | None => None
  end.

(** ** Reading the trace of a buffer

    Used to state what consecutive chunks have in common. *)

(** The chunk still pending at the end of a trace: the last event if it is a
    chunk, [prev] if nothing happened. *)
Fixpoint last_chunk (prev : option (list Byte.byte)) (evs : list event)
  : option (list Byte.byte) :=
  match evs with
  | [] => prev
  | EvChunk c :: evs' => last_chunk (Some c) evs'
  | _ :: evs' => last_chunk None evs'
  end.

(** Every chunk that directly follows another one in the trace starts with
    the last [OVERLAP_SIZE] bytes of its predecessor; [prev] is the chunk
    directly before the trace, if any. *)
Fixpoint chained (prev : option (list Byte.byte)) (evs : list event) : Prop :=
  match evs with
  | [] => True
  | EvChunk c :: evs' =>
      match prev with
      | Some p => slice_from (- OVERLAP_SIZE) p = slice_to OVERLAP_SIZE c
      | None => True
      end /\ chained (Some c) evs'
  | _ :: evs' => chained None evs'
  end.

(** The buffer still starts with the tail of the pending chunk. *)
Definition carries (prev : option (list Byte.byte)) (buf : list Byte.byte) : Prop :=
  match prev with
  | Some p =>
      OVERLAP_SIZE <= len buf
      /\ slice_from (- OVERLAP_SIZE) p = slice_to OVERLAP_SIZE buf
  | None => True
  end.

(** The bytes a trace accounts for, put back in stream order: a chunk
    followed by a clear stands for itself, any other chunk for its first
    [MIN_CHUNK_SIZE - OVERLAP_SIZE] bytes (the rest of it is still in the
    buffer), and [rest] is what the buffer holds at the end. *)
Fixpoint replay (evs : list event) (rest : list Byte.byte) : list Byte.byte :=
  match evs with
  | [] => rest
  | EvChunk c :: evs' =>
      match evs' with
      | EvCleared :: evs'' => c ++ replay evs'' rest
      | _ => slice_to (MIN_CHUNK_SIZE - OVERLAP_SIZE) c ++ replay evs' rest
      end
  | _ :: evs' => replay evs' rest
  end.

(** The number of turns the chunk loop takes on [n] accumulated bytes. *)
Definition chunk_count (n : Z) : Z :=
  if n <? MIN_CHUNK_SIZE then 0
  else 1 + (n - MIN_CHUNK_SIZE) / (MIN_CHUNK_SIZE - OVERLAP_SIZE).

(** A trace that begins with a clear; no run of the code produces one. *)
Definition starts_with_clear (evs : list event) : Prop :=
  match evs with
  | EvCleared :: _ => True
  | _ => False
  end.

(** The trace records no overflow. *)
Definition no_overflow (evs : list event) : Prop :=
  forall excess, ~ In (EvOverflow excess) evs.

(** ** Reading the replies

    What the client is sent when [json.loads] raises [e] on a text message:
    nothing for a [JSONDecodeError], the error's text for anything else. *)
Definition decode_failure_reply (env : Env) (e : exn) : list action :=
  match e with
  | JSONDecodeError _ => []
  | _ => [Send (PyDict [ (u "type", PyStr (u "error"));
                         (u "message", PyStr (str_exn env e)) ])]
  end.

(** ** Reading the results

    The two readings of the post-processing of segments and of the response
    body that the properties below compare. *)

Definition high_no_speech (segment : Segment) : bool :=
  match no_speech_prob segment with
  | Some p => PrimFloat.ltb 0.5%float p
  | None => false
  end.

Definition on_denylist (env : Env) (segment : Segment) : bool :=
  existsb (fun pattern => contains pattern (lower env (strip (text segment))))
          hallucination_patterns.

(** The specification's reading: the segments it says are dropped, and the
    text it says is returned. *)
Definition spec_dropped (env : Env) (segment : Segment) : bool :=
  high_no_speech segment || on_denylist env segment.

Definition spec_collect_text (env : Env) (segments : list Segment) : str :=
  strip (join (u " ") (map (fun s => strip (text s))
                           (List.filter (fun s => negb (spec_dropped env s)) segments))).

(** The segments the code drops: also those whose stripped text has fewer
    than two characters. *)
Definition dropped (env : Env) (segment : Segment) : bool :=
  (len (strip (text segment)) <? 2)
  || high_no_speech segment || on_denylist env segment.

Definition short_and_long : list Segment :=
  [ {| text := u " I"; no_speech_prob := Some 0.25%float |};
    {| text := u " hello there"; no_speech_prob := Some 0.25%float |} ].

(** [body[key]], when [body] is a dict that has the key. *)
Definition field (body : pyval) (key : str) : option pyval :=
  match body with
  | PyDict items => dict_lookup key items
  | _ => None
  end.

Definition is_str (v : option pyval) : bool :=
  match v with Some (PyStr _) => true | _ => false end.

Definition is_bool (v : option pyval) : bool :=
  match v with Some (PyBool _) => true | _ => false end.

Definition absent (v : option pyval) : bool :=
  match v with None => true | Some _ => false end.

(** The specification's reading of the response body: [success], [text]
    and [language] always, and [error] optional. *)
Definition spec_envelope (body : pyval) : bool :=
  is_bool (field body (u "success")) && is_str (field body (u "text"))
  && is_str (field body (u "language"))
  && (absent (field body (u "error")) || is_str (field body (u "error"))).

(** The shape the code produces: [language] comes with success, [error]
    with failure. *)
Definition envelope (body : pyval) : bool :=
  match field body (u "success") with
  | Some (PyBool true) =>
      is_str (field body (u "text")) && is_str (field body (u "language"))
      && absent (field body (u "error"))
  | Some (PyBool false) =>
      is_str (field body (u "text")) && is_str (field body (u "error"))
      && absent (field body (u "language"))
  | _ => false
  end.

(** ** Sample collaborators and inputs *)

(** The double quote, for writing JSON text. *)
Definition dq : str := [34%N].

Definition start_text (source : str) : str :=
  u "{" ++ dq ++ u "type" ++ dq ++ u ":" ++ dq ++ u "start" ++ dq ++ u ","
  ++ dq ++ u "source" ++ dq ++ u ":" ++ dq ++ source ++ dq ++ u "}".

Definition stop_text : str :=
  u "{" ++ dq ++ u "type" ++ dq ++ u ":" ++ dq ++ u "stop" ++ dq ++ u "}".

Definition ping_text : str :=
  u "{" ++ dq ++ u "type" ++ dq ++ u ":" ++ dq ++ u "ping" ++ dq ++ u "}".

(** The dict [json.loads] returns for [start_text source]. *)
Definition start_data (source : str) : pyval :=
  PyDict [ (u "type", PyStr (u "start")); (u "source", PyStr source) ].

(** A decoder for the sample conversations: it knows the control messages
    above for the sources [microphone] and [system], and rejects every other
    text as [json.loads] rejects text that is not JSON. *)
Definition decode_control (s : str) : outcome pyval :=
  if str_eqb s (start_text (u "microphone")) then Returned (start_data (u "microphone"))
  else if str_eqb s (start_text (u "system")) then Returned (start_data (u "system"))
  else if str_eqb s stop_text then Returned (PyDict [ (u "type", PyStr (u "stop")) ])
  else if str_eqb s ping_text then Returned (PyDict [ (u "type", PyStr (u "ping")) ])
  else Raised (JSONDecodeError (u "Expecting value: line 1 column 1 (char 0)")).

(** [repr] of a string of printable ASCII characters: in single quotes, or
    in double quotes when the text has a single quote and no double quote;
    the backslash and the enclosing quote are escaped. *)
Definition printable_repr (s : str) : str :=
  let quote := if existsb (N.eqb 39) s && negb (existsb (N.eqb 34) s) then 34%N else 39%N in
  [quote]
  ++ flat_map (fun c => if ((c =? 92) || (c =? quote))%N then [92%N; c] else [c]) s
  ++ [quote].

(** [str.lower] on text whose only cased characters are ASCII letters. *)
Definition ascii_lower (s : str) : str := map lower_char s.

(** A model that hears nothing: no segment comes back, as for silence with
    the VAD filter on.  The sample conversations only format strings and
    only lower ASCII text, so [py_str] and [py_lower] are never consulted
    by them. *)
Definition quiet_env : Env := {|
  model_transcribe := fun _ => Returned (Returned [], {| language := Some (u "en") |});
  run_ffmpeg := fun _ => Raised (ExternalError (u "ffmpeg: not found"));
  wave_open := fun _ => None;
  json_loads := decode_control;
  struct_error_text := u "'L' format requires 0 <= number <= 4294967295";
  py_str := type_name;
  py_repr := printable_repr;
  py_lower := ascii_lower;
  maxsize := 9223372036854775807;
  alloc_error := fun _ => None
|}.

(** A model that fails on every file. *)
Definition broken_env : Env := {|
  model_transcribe := fun _ => Raised (ExternalError (u "model failure"));
  run_ffmpeg := fun _ => Raised (ExternalError (u "ffmpeg: not found"));
  wave_open := fun _ => None;
  json_loads := decode_control;
  struct_error_text := u "'L' format requires 0 <= number <= 4294967295";
  py_str := type_name;
  py_repr := printable_repr;
  py_lower := ascii_lower;
  maxsize := 9223372036854775807;
  alloc_error := fun _ => None
|}.

(** The same collaborators with a decoder that also knows the JSON array
    [[]]. *)
Definition array_env : Env := {|
  model_transcribe := model_transcribe quiet_env;
  run_ffmpeg := run_ffmpeg quiet_env;
  wave_open := wave_open quiet_env;
  json_loads :=
    fun s => if str_eqb s (u "[]") then Returned (PyList []) else decode_control s;
  struct_error_text := struct_error_text quiet_env;
  py_str := py_str quiet_env;
  py_repr := py_repr quiet_env;
  py_lower := py_lower quiet_env;
  maxsize := maxsize quiet_env;
  alloc_error := alloc_error quiet_env
|}.

(** [n] bytes of all-zero samples. *)
Definition silence (n : Z) : list Byte.byte := replicate (Z.to_nat n) Byte.x00.

Definition sample_address : str := u "('127.0.0.1', 50432)".

(** A POST of [n] zero bytes declared as raw PCM. *)
Definition pcm_request (n : Z) : request :=
  {| content_type := u "application/octet-stream";
     content_length := Returned n;
     rfile := silence n |}.

(** * Properties *)

(** ** Lengths and slices *)

Lemma len_nonneg {A : Type} (l : list A) : 0 <= len l.
Proof. unfold len. lia. Qed.

Lemma len_app {A : Type} (l k : list A) : len (l ++ k) = len l + len k.
Proof. unfold len. rewrite length_app. lia. Qed.

Lemma len_nil {A : Type} : len (@nil A) = 0.
Proof. reflexivity. Qed.

Lemma slice_to_take {A : Type} (k : Z) (b : list A) :
  0 <= k -> slice_to k b = take (Z.to_nat k) b.
Proof.
  intros Hk. unfold slice_to, norm_index, len.
  destruct (Z.ltb_spec k 0) as [Hneg | _]; [lia |].
  destruct (Z.le_gt_cases k (Z.of_nat (length b))) as [Hle | Hgt].
  - now rewrite Z.min_l.
  - rewrite Z.min_r by lia. rewrite Nat2Z.id.
    rewrite !take_ge; [reflexivity | lia | lia].
Qed.

Lemma slice_from_drop {A : Type} (k : Z) (b : list A) :
  0 <= k -> slice_from k b = drop (Z.to_nat k) b.
Proof.
  intros Hk. unfold slice_from, norm_index, len.
  destruct (Z.ltb_spec k 0) as [Hneg | _]; [lia |].
  destruct (Z.le_gt_cases k (Z.of_nat (length b))) as [Hle | Hgt].
  - now rewrite Z.min_l.
  - rewrite Z.min_r by lia. rewrite Nat2Z.id.
    rewrite !drop_ge; [reflexivity | lia | lia].
Qed.

(** [b[-k:]] keeps the last [k] elements. *)
Lemma slice_from_neg {A : Type} (k : Z) (b : list A) :
  0 < k -> k <= len b -> slice_from (- k) b = drop (Z.to_nat (len b - k)) b.
Proof.
  intros Hk Hle. unfold slice_from, norm_index.
  destruct (Z.ltb_spec (- k) 0) as [_ | Hpos]; [| lia].
  f_equal. lia.
Qed.

Lemma len_take {A : Type} (n : nat) (b : list A) :
  (n <= length b)%nat -> len (take n b) = Z.of_nat n.
Proof. intros H. unfold len. rewrite length_take. lia. Qed.

Lemma len_drop {A : Type} (n : nat) (b : list A) :
  len (drop n b) = Z.max 0 (len b - Z.of_nat n).
Proof. unfold len. rewrite length_drop. lia. Qed.

(** The policy constants are ordered as the chunking code needs. *)
Lemma policy_constants :
  0 < OVERLAP_SIZE /\ OVERLAP_SIZE < MIN_CHUNK_SIZE /\ MIN_CHUNK_SIZE < MAX_BUFFER_SIZE.
Proof. unfold OVERLAP_SIZE, MIN_CHUNK_SIZE, MAX_BUFFER_SIZE. lia. Qed.

(** Linear arithmetic with the values of the constants at hand. *)
Ltac policy_lia :=
  unfold MIN_CHUNK_SIZE, OVERLAP_SIZE, MAX_BUFFER_SIZE, WAV_DATA_LIMIT in *; lia.

(** ** The chunk loop *)

Lemma extract_chunks_step (fuel : nat) (buf : list Byte.byte) :
  extract_chunks (S fuel) buf =
    if len buf <? MIN_CHUNK_SIZE then Some ([], buf)
    else
      match extract_chunks fuel (snd (after_chunk buf)) with
      | Some (evs, rest) =>
          Some (EvChunk (slice_to MIN_CHUNK_SIZE buf) :: fst (after_chunk buf) ++ evs, rest)
      | None => None
      end.
Proof.
  cbn [extract_chunks].
  destruct (len buf <? MIN_CHUNK_SIZE); [reflexivity |].
  destruct (after_chunk buf) as [mark buf']. reflexivity.
Qed.

Lemma after_chunk_shrinks (buf : list Byte.byte) :
  MIN_CHUNK_SIZE <= len buf ->
  (length (snd (after_chunk buf)) < length buf)%nat.
Proof.
  intros Hge. pose proof policy_constants as (Ho & Hom & _).
  unfold after_chunk.
  destruct (Z.ltb_spec MIN_CHUNK_SIZE (len buf)) as [Hgt | Hle]; cbn [snd].
  - rewrite slice_from_drop by lia. rewrite length_drop. unfold len in *. lia.
  - unfold len in *. cbn [length]. lia.
Qed.

(** With one unit of fuel per byte the loop always finishes. *)
Lemma extract_chunks_enough (fuel : nat) :
  forall buf : list Byte.byte,
    (length buf <= fuel)%nat ->
    exists evs rest, extract_chunks fuel buf = Some (evs, rest).
Proof.
  induction fuel as [| fuel IH]; intros buf Hlen.
  - exists [], buf. cbn [extract_chunks].
    destruct (Z.ltb_spec (len buf) MIN_CHUNK_SIZE) as [_ | Hge]; [reflexivity |].
    pose proof policy_constants. unfold len in Hge. lia.
  - rewrite extract_chunks_step.
    destruct (Z.ltb_spec (len buf) MIN_CHUNK_SIZE) as [_ | Hge]; [eauto |].
    pose proof (after_chunk_shrinks buf Hge) as Hshrink.
    destruct (IH (snd (after_chunk buf))) as (evs & rest & Heq); [lia |].
    rewrite Heq. eauto.
Qed.

(** More fuel does not change a finished run. *)
Lemma extract_chunks_more_fuel (fuel : nat) :
  forall (fuel' : nat) (buf : list Byte.byte) r,
    extract_chunks fuel buf = Some r -> (fuel <= fuel')%nat ->
    extract_chunks fuel' buf = Some r.
Proof.
  induction fuel as [| fuel IH]; intros fuel' buf r Hrun Hle.
  - cbn [extract_chunks] in Hrun.
    destruct (len buf <? MIN_CHUNK_SIZE) eqn:Hcond; [| discriminate].
    destruct fuel'; [| rewrite extract_chunks_step]; cbn [extract_chunks];
      rewrite Hcond; exact Hrun.
  - destruct fuel' as [| fuel']; [lia |].
    rewrite extract_chunks_step in Hrun |- *.
    destruct (len buf <? MIN_CHUNK_SIZE); [exact Hrun |].
    destruct (extract_chunks fuel (snd (after_chunk buf))) as [[evs rest] |] eqn:Hrec;
      [| discriminate].
    rewrite (IH fuel' _ _ Hrec) by lia. exact Hrun.
Qed.

Lemma drain_total (buf : list Byte.byte) :
  exists evs rest, drain buf = Some (evs, rest).
Proof. apply extract_chunks_enough. lia. Qed.

(** The loop equation: [drain] is the [while] loop of the source. *)
Lemma drain_unfold (buf : list Byte.byte) :
  drain buf =
    if len buf <? MIN_CHUNK_SIZE then Some ([], buf)
    else
      match drain (snd (after_chunk buf)) with
      | Some (evs, rest) =>
          Some (EvChunk (slice_to MIN_CHUNK_SIZE buf) :: fst (after_chunk buf) ++ evs, rest)
      | None => None
      end.
Proof.
  unfold drain at 1.
  destruct (Z.ltb_spec (len buf) MIN_CHUNK_SIZE) as [Hlt | Hge].
  - destruct (length buf); cbn [extract_chunks];
      destruct (Z.ltb_spec (len buf) MIN_CHUNK_SIZE); try lia; reflexivity.
  - pose proof (after_chunk_shrinks buf Hge) as Hshrink.
    destruct (length buf) as [| n] eqn:Hn; [lia |].
    rewrite extract_chunks_step.
    destruct (Z.ltb_spec (len buf) MIN_CHUNK_SIZE) as [Hlt | _]; [lia |].
    destruct (drain_total (snd (after_chunk buf))) as (evs & rest & Hd).
    rewrite Hd. unfold drain in Hd.
    rewrite (extract_chunks_more_fuel _ n _ _ Hd) by lia. reflexivity.
Qed.

(** The loop leaves less than a chunk behind. *)
Lemma extract_chunks_rest (fuel : nat) :
  forall (buf : list Byte.byte) evs rest,
    extract_chunks fuel buf = Some (evs, rest) -> len rest < MIN_CHUNK_SIZE.
Proof.
  induction fuel as [| fuel IH]; intros buf evs rest Hrun.
  - cbn [extract_chunks] in Hrun.
    destruct (Z.ltb_spec (len buf) MIN_CHUNK_SIZE); [| discriminate].
    now inversion Hrun; subst.
  - rewrite extract_chunks_step in Hrun.
    destruct (Z.ltb_spec (len buf) MIN_CHUNK_SIZE).
    + now inversion Hrun; subst.
    + destruct (extract_chunks fuel (snd (after_chunk buf))) as [[evs' rest'] |] eqn:Hrec;
        [| discriminate].
      inversion Hrun; subst. eapply IH; eauto.
Qed.

Lemma feed_total (buf message : list Byte.byte) :
  exists evs rest, feed buf message = Some (evs, rest) /\ len rest < MIN_CHUNK_SIZE.
Proof.
  unfold feed. destruct (trim_overflow (buf ++ message)) as [ov kept].
  destruct (drain_total kept) as (evs & rest & Hd). rewrite Hd.
  exists (ov ++ evs), rest. split; [reflexivity |].
  eapply extract_chunks_rest. exact Hd.
Qed.

(** ** The chunker *)

(** C2.  The chunk loop, run on the accumulator of a feed, does one of three
    things: below [MIN_CHUNK_SIZE] it stops and leaves the accumulator as it
    is; above, it hands out the first [MIN_CHUNK_SIZE] bytes and goes on with
    the suffix from offset [MIN_CHUNK_SIZE - OVERLAP_SIZE]; at exactly
    [MIN_CHUNK_SIZE] it hands out the whole accumulator and clears it.  The
    loop always finishes and every chunk has exactly [MIN_CHUNK_SIZE] bytes.
    Feeding [MIN_CHUNK_SIZE + 1000] bytes to an empty buffer therefore gives
    one chunk of [MIN_CHUNK_SIZE] bytes and leaves [1000 + OVERLAP_SIZE]
    bytes. *)
Theorem C2_chunk_extraction :
  (forall buf : list Byte.byte,
      drain buf =
        if len buf <? MIN_CHUNK_SIZE then Some ([], buf)
        else if MIN_CHUNK_SIZE <? len buf then
          match drain (slice_from (MIN_CHUNK_SIZE - OVERLAP_SIZE) buf) with
          | Some (evs, rest) => Some (EvChunk (slice_to MIN_CHUNK_SIZE buf) :: evs, rest)
          | None => None
          end
        else Some ([EvChunk (slice_to MIN_CHUNK_SIZE buf); EvCleared], []))
  /\ (forall buf message : list Byte.byte,
        exists evs rest, feed buf message = Some (evs, rest))
  /\ (forall buf : list Byte.byte,
        MIN_CHUNK_SIZE <= len buf -> len (slice_to MIN_CHUNK_SIZE buf) = MIN_CHUNK_SIZE)
  /\ (forall data : list Byte.byte,
        len data = MIN_CHUNK_SIZE + 1000 ->
        feed [] data =
          Some ([EvChunk (slice_to MIN_CHUNK_SIZE data)],
                slice_from (MIN_CHUNK_SIZE - OVERLAP_SIZE) data)
        /\ len (slice_to MIN_CHUNK_SIZE data) = MIN_CHUNK_SIZE
        /\ len (slice_from (MIN_CHUNK_SIZE - OVERLAP_SIZE) data) = 1000 + OVERLAP_SIZE).
Proof.
  pose proof policy_constants as (Ho & Hom & Hmm).
  assert (Hchunk : forall buf : list Byte.byte,
             MIN_CHUNK_SIZE <= len buf -> len (slice_to MIN_CHUNK_SIZE buf) = MIN_CHUNK_SIZE).
  { intros buf Hge. rewrite slice_to_take by lia.
    rewrite len_take; unfold len in *; lia. }
  split; [| split; [| split]].
  - intros buf. rewrite drain_unfold. unfold after_chunk.
    destruct (len buf <? MIN_CHUNK_SIZE); [reflexivity |].
    destruct (MIN_CHUNK_SIZE <? len buf); cbn [fst snd app]; [reflexivity |].
    rewrite drain_unfold. reflexivity.
  - intros buf message. destruct (feed_total buf message) as (evs & rest & H & _). eauto.
  - exact Hchunk.
  - intros data Hlen.
    assert (Hrest : len (slice_from (MIN_CHUNK_SIZE - OVERLAP_SIZE) data) = 1000 + OVERLAP_SIZE).
    { rewrite slice_from_drop by lia. rewrite len_drop. lia. }
    split; [| split; [apply Hchunk; lia | exact Hrest]].
    unfold feed, trim_overflow. cbn [app].
    destruct (Z.ltb_spec MAX_BUFFER_SIZE (len data)) as [Hbig | _];
      [policy_lia |].
    rewrite drain_unfold. unfold after_chunk.
    destruct (Z.ltb_spec (len data) MIN_CHUNK_SIZE) as [Hsmall | _]; [lia |].
    destruct (Z.ltb_spec MIN_CHUNK_SIZE (len data)) as [_ | Hsmall]; [| lia].
    cbn [fst snd app]. rewrite drain_unfold.
    destruct (Z.ltb_spec (len (slice_from (MIN_CHUNK_SIZE - OVERLAP_SIZE) data)) MIN_CHUNK_SIZE)
      as [_ | Hbig]; [reflexivity |].
    policy_lia.
Qed.

(** C2 at a concrete input: 49000 zero bytes fed to an empty buffer. *)
Lemma C2_chunk_extraction_witness :
  len (silence 49000) = MIN_CHUNK_SIZE + 1000
  /\ feed [] (silence 49000) =
       Some ([EvChunk (silence 48000)], silence 17000).
Proof.
  assert (Hlen : len (silence 49000) = MIN_CHUNK_SIZE + 1000).
  { unfold len, silence. rewrite length_replicate. policy_lia. }
  split; [exact Hlen |].
  destruct C2_chunk_extraction as (_ & _ & _ & Hscenario).
  destruct (Hscenario (silence 49000) Hlen) as (Hfeed & _ & _).
  rewrite Hfeed.
  rewrite slice_to_take, slice_from_drop by policy_lia.
  unfold silence. rewrite take_replicate, drop_replicate.
  repeat f_equal; policy_lia.
Defined.

(** C5.  In every feed the accumulated bytes are cut to [MAX_BUFFER_SIZE]
    before the chunk loop runs: when their length exceeds the cap, exactly
    [excess = length - MAX_BUFFER_SIZE] bytes go, taken from the front, and
    that count is what is logged; otherwise nothing is dropped and nothing is
    logged.  The loop then runs on what is kept. *)
Theorem C5_overflow_drop (buf message : list Byte.byte) :
  let acc := buf ++ message in
  let excess := Z.max 0 (len acc - MAX_BUFFER_SIZE) in
  let logged := if 0 <? excess then [EvOverflow excess] else [] in
  exists dropped kept : list Byte.byte,
    acc = dropped ++ kept
    /\ len dropped = excess
    /\ trim_overflow acc = (logged, kept)
    /\ feed buf message =
         match drain kept with
         | Some (evs, rest) => Some (logged ++ evs, rest)
         | None => None
         end.
Proof.
  intros acc excess logged. subst logged.
  exists (take (Z.to_nat excess) acc), (drop (Z.to_nat excess) acc).
  assert (Htrim : trim_overflow acc =
                    (if 0 <? excess then [EvOverflow excess] else [],
                     drop (Z.to_nat excess) acc)).
  { unfold trim_overflow. subst excess.
    destruct (Z.ltb_spec MAX_BUFFER_SIZE (len acc)) as [Hbig | Hsmall].
    - rewrite Z.max_r by lia.
      destruct (Z.ltb_spec 0 (len acc - MAX_BUFFER_SIZE)); [| lia].
      rewrite slice_from_drop by lia. reflexivity.
    - rewrite Z.max_l by lia. reflexivity. }
  split; [symmetry; apply take_drop |].
  split; [| split; [exact Htrim |]].
  - pose proof policy_constants.
    rewrite len_take; subst excess; unfold len; lia.
  - unfold feed. fold acc. rewrite Htrim. reflexivity.
Qed.

(** ** Overlap between consecutive chunks *)

Lemma last_chunk_app (evs1 evs2 : list event) :
  forall prev, last_chunk prev (evs1 ++ evs2) = last_chunk (last_chunk prev evs1) evs2.
Proof.
  induction evs1 as [| e evs1 IH]; intros prev; [reflexivity |].
  destruct e; cbn [app last_chunk]; apply IH.
Qed.

Lemma chained_app (evs1 evs2 : list event) :
  forall prev,
    chained prev evs1 -> chained (last_chunk prev evs1) evs2 ->
    chained prev (evs1 ++ evs2).
Proof.
  induction evs1 as [| e evs1 IH]; intros prev H1 H2; [exact H2 |].
  destruct e; cbn [app chained last_chunk] in *.
  - now apply IH.
  - destruct H1 as [Hhead Htail]. split; [exact Hhead | now apply IH].
  - now apply IH.
Qed.

Lemma carries_app (prev : option (list Byte.byte)) (buf message : list Byte.byte) :
  carries prev buf -> carries prev (buf ++ message).
Proof.
  destruct prev as [p |]; [| trivial].
  intros [Hlen Heq]. pose proof policy_constants as (Ho & _).
  pose proof (len_nonneg message). split.
  - rewrite len_app. lia.
  - rewrite Heq. rewrite !slice_to_take by lia.
    rewrite take_app_le; [reflexivity | unfold len in Hlen; lia].
Qed.

Lemma trim_overflow_carries (prev : option (list Byte.byte)) (acc : list Byte.byte) :
  carries prev acc ->
  chained prev (fst (trim_overflow acc))
  /\ carries (last_chunk prev (fst (trim_overflow acc))) (snd (trim_overflow acc)).
Proof.
  intros Hc. unfold trim_overflow.
  destruct (MAX_BUFFER_SIZE <? len acc); cbn [fst snd chained last_chunk carries];
    [split; exact I | split; [exact I | exact Hc]].
Qed.

(** What one turn of the loop hands over to the next. *)
Lemma after_chunk_carries (prev : option (list Byte.byte)) (buf : list Byte.byte) :
  MIN_CHUNK_SIZE <= len buf ->
  carries prev buf ->
  match prev with
  | Some p => slice_from (- OVERLAP_SIZE) p = slice_to OVERLAP_SIZE (slice_to MIN_CHUNK_SIZE buf)
  | None => True
  end
  /\ carries (last_chunk (Some (slice_to MIN_CHUNK_SIZE buf)) (fst (after_chunk buf)))
             (snd (after_chunk buf)).
Proof.
  intros Hge Hc. pose proof policy_constants as (Ho & Hom & _). split.
  - destruct prev as [p |]; [| exact I]. destruct Hc as [_ Heq]. rewrite Heq.
    rewrite !slice_to_take by lia. rewrite take_take.
    replace (Z.to_nat OVERLAP_SIZE `min` Z.to_nat MIN_CHUNK_SIZE)%nat
      with (Z.to_nat OVERLAP_SIZE) by lia.
    reflexivity.
  - unfold after_chunk.
    destruct (Z.ltb_spec MIN_CHUNK_SIZE (len buf)) as [Hgt | Hle];
      cbn [fst snd last_chunk carries]; [| exact I].
    assert (Hchunk : len (slice_to MIN_CHUNK_SIZE buf) = MIN_CHUNK_SIZE).
    { rewrite slice_to_take by lia. rewrite len_take; unfold len in *; lia. }
    split.
    + rewrite slice_from_drop by lia. rewrite len_drop. lia.
    + rewrite slice_from_neg by lia. rewrite Hchunk.
      rewrite (slice_from_drop (MIN_CHUNK_SIZE - OVERLAP_SIZE)) by lia.
      rewrite !slice_to_take by lia. rewrite take_drop_commute.
      replace (Z.to_nat (MIN_CHUNK_SIZE - OVERLAP_SIZE) + Z.to_nat OVERLAP_SIZE)%nat
        with (Z.to_nat MIN_CHUNK_SIZE) by lia.
      replace (Z.to_nat (MIN_CHUNK_SIZE - OVERLAP_SIZE))
        with (Z.to_nat (MIN_CHUNK_SIZE - OVERLAP_SIZE - 0)) at 1 by lia.
      rewrite Z.sub_0_r. reflexivity.
Qed.

Lemma extract_chunks_chained (fuel : nat) :
  forall (prev : option (list Byte.byte)) (buf : list Byte.byte) evs rest,
    carries prev buf ->
    extract_chunks fuel buf = Some (evs, rest) ->
    chained prev evs /\ carries (last_chunk prev evs) rest.
Proof.
  induction fuel as [| fuel IH]; intros prev buf evs rest Hc Hrun.
  - cbn [extract_chunks] in Hrun.
    destruct (len buf <? MIN_CHUNK_SIZE); [| discriminate].
    inversion Hrun; subst. split; [exact I | exact Hc].
  - rewrite extract_chunks_step in Hrun.
    destruct (Z.ltb_spec (len buf) MIN_CHUNK_SIZE) as [Hlt | Hge].
    + inversion Hrun; subst. split; [exact I | exact Hc].
    + destruct (extract_chunks fuel (snd (after_chunk buf))) as [[evs' rest'] |] eqn:Hrec;
        [| discriminate].
      inversion Hrun; subst. clear Hrun.
      destruct (after_chunk_carries prev buf Hge Hc) as [Hhead Hnext].
      destruct (IH _ _ _ _ Hnext Hrec) as [Hch Hca].
      change (EvChunk (slice_to MIN_CHUNK_SIZE buf) :: fst (after_chunk buf) ++ evs')
        with ((EvChunk (slice_to MIN_CHUNK_SIZE buf) :: fst (after_chunk buf)) ++ evs').
      rewrite last_chunk_app. split; [| exact Hca].
      apply chained_app; [| exact Hch].
      cbn [chained]. split; [exact Hhead |].
      unfold after_chunk. destruct (MIN_CHUNK_SIZE <? len buf); exact I.
Qed.

Lemma feed_chained (prev : option (list Byte.byte)) (buf message : list Byte.byte) evs rest :
  carries prev buf ->
  feed buf message = Some (evs, rest) ->
  chained prev evs /\ carries (last_chunk prev evs) rest.
Proof.
  intros Hc Hfeed. unfold feed in Hfeed.
  pose proof (trim_overflow_carries prev _ (carries_app prev buf message Hc)) as [Hov Hkept].
  destruct (trim_overflow (buf ++ message)) as [ov kept]. cbn [fst snd] in *.
  destruct (drain kept) as [[evs' rest'] |] eqn:Hd; [| discriminate].
  inversion Hfeed; subst. clear Hfeed.
  destruct (extract_chunks_chained _ _ _ _ _ Hkept Hd) as [Hch Hca].
  rewrite last_chunk_app. split; [now apply chained_app | exact Hca].
Qed.

Lemma feed_all_chained (messages : list (list Byte.byte)) :
  forall (prev : option (list Byte.byte)) (buf : list Byte.byte) evs rest,
    carries prev buf ->
    feed_all buf messages = Some (evs, rest) ->
    chained prev evs /\ carries (last_chunk prev evs) rest.
Proof.
  induction messages as [| m ms IH]; intros prev buf evs rest Hc Hrun;
    cbn [feed_all] in Hrun.
  - inversion Hrun; subst. split; [exact I | exact Hc].
  - destruct (feed buf m) as [[evs1 buf1] |] eqn:Hfeed; [| discriminate].
    destruct (feed_all buf1 ms) as [[evs2 buf2] |] eqn:Hrest; [| discriminate].
    inversion Hrun; subst. clear Hrun.
    destruct (feed_chained _ _ _ _ _ Hc Hfeed) as [Hch1 Hca1].
    destruct (IH _ _ _ _ Hca1 Hrest) as [Hch2 Hca2].
    rewrite last_chunk_app. split; [now apply chained_app | exact Hca2].
Qed.

(** Any sequence of feeds runs to the end. *)
Lemma feed_all_total (messages : list (list Byte.byte)) :
  forall buf : list Byte.byte,
    exists evs rest, feed_all buf messages = Some (evs, rest).
Proof.
  induction messages as [| m ms IH]; intros buf; cbn [feed_all]; [eauto |].
  destruct (feed_total buf m) as (evs & buf' & -> & _).
  destruct (IH buf') as (evs' & rest & ->). eauto.
Qed.

Lemma chained_adjacent (pre : list event) :
  forall (prev : option (list Byte.byte)) (c1 c2 : list Byte.byte) (post : list event),
    chained prev (pre ++ EvChunk c1 :: EvChunk c2 :: post) ->
    slice_from (- OVERLAP_SIZE) c1 = slice_to OVERLAP_SIZE c2.
Proof.
  induction pre as [| e pre IH]; intros prev c1 c2 post Hch.
  - cbn [app chained] in Hch. tauto.
  - destruct e; cbn [app chained] in Hch; [| destruct Hch as [_ Hch] |]; eapply IH; exact Hch.
Qed.

(** C8.  In the trace of any sequence of feeds into one buffer, two chunks
    that follow each other with no overflow drop and no exact-length clear
    between them overlap: the last [OVERLAP_SIZE] bytes of the earlier chunk
    are the first [OVERLAP_SIZE] bytes of the later one. *)
Theorem C8_consecutive_chunks_overlap
    (buf : list Byte.byte) (messages : list (list Byte.byte))
    (evs : list event) (rest : list Byte.byte)
    (pre : list event) (c1 c2 : list Byte.byte) (post : list event) :
  feed_all buf messages = Some (evs, rest) ->
  evs = pre ++ EvChunk c1 :: EvChunk c2 :: post ->
  slice_from (- OVERLAP_SIZE) c1 = slice_to OVERLAP_SIZE c2.
Proof.
  intros Hrun Hevs.
  destruct (feed_all_chained messages None buf evs rest I Hrun) as [Hch _].
  subst evs. eapply chained_adjacent. exact Hch.
Qed.

(** The loop on all-zero buffers, used for the concrete runs below. *)
Lemma len_silence (n : Z) : 0 <= n -> len (silence n) = n.
Proof. intros Hn. unfold len, silence. rewrite length_replicate. lia. Qed.

Lemma drain_short (buf : list Byte.byte) :
  len buf < MIN_CHUNK_SIZE -> drain buf = Some ([], buf).
Proof.
  intros Hlt. rewrite drain_unfold.
  destruct (Z.ltb_spec (len buf) MIN_CHUNK_SIZE); [reflexivity | lia].
Qed.

Lemma drain_exact (buf : list Byte.byte) :
  len buf = MIN_CHUNK_SIZE -> drain buf = Some ([EvChunk buf; EvCleared], []).
Proof.
  intros Heq. pose proof policy_constants as (Ho & Hom & _).
  rewrite drain_unfold. unfold after_chunk.
  destruct (Z.ltb_spec (len buf) MIN_CHUNK_SIZE); [lia |].
  destruct (Z.ltb_spec MIN_CHUNK_SIZE (len buf)); [lia |].
  cbn [fst snd]. rewrite drain_short by (rewrite len_nil; lia).
  rewrite slice_to_take by lia. rewrite take_ge by (unfold len in Heq; lia).
  reflexivity.
Qed.

Lemma drain_silence_long (n : Z) :
  MIN_CHUNK_SIZE < n ->
  drain (silence n) =
    match drain (silence (n - (MIN_CHUNK_SIZE - OVERLAP_SIZE))) with
    | Some (evs, rest) => Some (EvChunk (silence MIN_CHUNK_SIZE) :: evs, rest)
    | None => None
    end.
Proof.
  intros Hgt. pose proof policy_constants as (Ho & Hom & _).
  rewrite drain_unfold. unfold after_chunk. rewrite len_silence by lia.
  destruct (Z.ltb_spec n MIN_CHUNK_SIZE); [lia |].
  destruct (Z.ltb_spec MIN_CHUNK_SIZE n); [| lia].
  cbn [fst snd app].
  rewrite slice_to_take, slice_from_drop by lia.
  unfold silence. rewrite take_replicate, drop_replicate.
  replace (Z.to_nat MIN_CHUNK_SIZE `min` Z.to_nat n)%nat
    with (Z.to_nat MIN_CHUNK_SIZE) by lia.
  replace (Z.to_nat n - Z.to_nat (MIN_CHUNK_SIZE - OVERLAP_SIZE))%nat
    with (Z.to_nat (n - (MIN_CHUNK_SIZE - OVERLAP_SIZE))) by lia.
  reflexivity.
Qed.

Lemma feed_empty_small (data : list Byte.byte) :
  len data <= MAX_BUFFER_SIZE -> feed [] data = drain data.
Proof.
  intros Hle. unfold feed, trim_overflow. cbn [app].
  destruct (Z.ltb_spec MAX_BUFFER_SIZE (len data)); [lia |].
  destruct (drain data) as [[evs rest] |]; reflexivity.
Qed.

(** C8 at a concrete input: 100000 zero bytes in one message give two chunks
    in a row. *)
Lemma C8_consecutive_chunks_overlap_witness :
  slice_from (- OVERLAP_SIZE) (silence MIN_CHUNK_SIZE)
  = slice_to OVERLAP_SIZE (silence MIN_CHUNK_SIZE).
Proof.
  apply (C8_consecutive_chunks_overlap [] [silence 100000]
           [EvChunk (silence MIN_CHUNK_SIZE); EvChunk (silence MIN_CHUNK_SIZE)]
           (silence 36000) [] (silence MIN_CHUNK_SIZE) (silence MIN_CHUNK_SIZE) []).
  - cbn [feed_all].
    rewrite feed_empty_small
      by (rewrite len_silence; policy_lia).
    rewrite drain_silence_long by policy_lia.
    rewrite drain_silence_long by policy_lia.
    rewrite drain_short
      by (rewrite len_silence; policy_lia).
    replace (100000 - (MIN_CHUNK_SIZE - OVERLAP_SIZE) - (MIN_CHUNK_SIZE - OVERLAP_SIZE))
      with 36000 by policy_lia.
    reflexivity.
  - reflexivity.
Defined.

(** ** The streaming session *)

Section Session.

(** One connection: its collaborators and the address of its client. *)
Context (env : Env) (client_address : str).

(** C10.  Handling a binary message always completes, and afterwards the
    bytearray stored under the connection's current key, if there is one,
    holds fewer than [MIN_CHUNK_SIZE] bytes, hence also fewer than
    [MAX_BUFFER_SIZE]. *)
Theorem C10_buffer_below_chunk_size
    (loc : locals)
    (audio_buffers : gmap str (list Byte.byte)) (message : list Byte.byte) :
  exists loc' bufs' acts,
    on_message env client_address loc audio_buffers (BinaryMessage message)
      = Some (loc', bufs', acts)
    /\ forall key buf,
         key_set (buffer_key loc') = Some key ->
         bufs' !! key = Some buf ->
         len buf < MIN_CHUNK_SIZE /\ len buf < MAX_BUFFER_SIZE.
Proof.
  pose proof policy_constants as (_ & _ & Hmax).
  unfold on_message, on_binary.
  set (st := if negb (truthy (source_type loc)) then _ else _).
  destruct st as [loc1 bufs1] eqn:Hst.
  destruct (key_set (buffer_key loc1)) as [key |] eqn:Hkey.
  - destruct (bufs1 !! key) as [buf |] eqn:Hbuf.
    + destruct (feed_total buf message) as (evs & rest & Hfeed & Hrest).
      rewrite Hfeed. eexists _, _, _. split; [reflexivity |].
      intros key' buf' Hkey' Hlook. rewrite Hkey in Hkey'. inversion Hkey'; subst key'.
      rewrite lookup_insert_eq in Hlook. inversion Hlook; subst buf'. lia.
    + eexists _, _, _. split; [reflexivity |].
      intros key' buf' Hkey' Hlook.
      assert (Hloc : loc = loc1 /\ audio_buffers = bufs1).
      { subst st. destruct (negb (truthy (source_type loc))).
        - injection Hst as <- <-. cbn [buffer_key key_set] in Hkey.
          destruct (str_eqb _ []); [discriminate |].
          injection Hkey as <-.
          destruct (audio_buffers !! make_key env client_address (PyStr (u "microphone")))
            eqn:Hpresent; [congruence |].
          rewrite lookup_insert_eq in Hbuf. discriminate.
        - inversion Hst; subst. tauto. }
      destruct Hloc as [-> ->]. congruence.
  - eexists _, _, _. split; [reflexivity |]. intros key buf Hkey'. congruence.
Qed.

(** C9.  A text message that [json.loads] cannot decode is not fatal and
    changes nothing: the locals and the buffer table stay as they are, no
    chunk is handed out, and the receive loop goes on with the next message.
    When the decoder raises [JSONDecodeError] nothing at all is sent; when it
    raises anything else, as it does on text nested too deeply, the one
    effect is an [error] message to the client. *)
Theorem C9_invalid_json_ignored
    (loc : locals)
    (audio_buffers : gmap str (list Byte.byte)) (s : str) (e : exn)
    (later : list ws_message) :
  json_loads env s = Raised e ->
  on_message env client_address loc audio_buffers (TextMessage s)
    = Some (loc, audio_buffers, decode_failure_reply env e)
  /\ (forall source chunk, ~ In (CreateTask source chunk) (decode_failure_reply env e))
  /\ (forall msg, e = JSONDecodeError msg -> decode_failure_reply env e = [])
  /\ receive env client_address loc audio_buffers (TextMessage s :: later)
     = match receive env client_address loc audio_buffers later with
       | Some (loc', bufs', acts') =>
           Some (loc', bufs', decode_failure_reply env e ++ acts')
       | None => None
       end.
Proof.
  intros Hbad.
  assert (Hmsg : on_message env client_address loc audio_buffers (TextMessage s)
                 = Some (loc, audio_buffers, decode_failure_reply env e)).
  { unfold on_message. rewrite Hbad. destruct e; reflexivity. }
  split; [exact Hmsg |]. split; [| split].
  - intros source chunk Hin. destruct e; cbn in Hin; intuition discriminate.
  - intros msg ->. reflexivity.
  - cbn [receive]. rewrite Hmsg. reflexivity.
Qed.

(** Every message is handled to the end, and so is every conversation. *)
Lemma on_message_total (loc : locals)
    (audio_buffers : gmap str (list Byte.byte)) (message : ws_message) :
  exists r, on_message env client_address loc audio_buffers message = Some r.
Proof.
  destruct message as [s | b]; unfold on_message.
  - destruct (json_loads env s) as [data | []]; eauto.
    destruct (on_control env client_address loc audio_buffers data); eauto.
  - unfold on_binary.
    destruct (if negb (truthy (source_type loc)) then _ else _) as [loc1 bufs1].
    destruct (key_set (buffer_key loc1)) as [key |]; [| eauto].
    destruct (bufs1 !! key) as [buf |]; [| eauto].
    destruct (feed_total buf b) as (evs & rest & -> & _). eauto.
Qed.

Lemma receive_total (messages : list ws_message) :
  forall (loc : locals) (audio_buffers : gmap str (list Byte.byte)),
    exists r, receive env client_address loc audio_buffers messages = Some r.
Proof.
  induction messages as [| m ms IH]; intros loc audio_buffers; cbn [receive]; [eauto |].
  destruct (on_message_total loc audio_buffers m) as ([[loc' bufs'] acts] & ->).
  destruct (IH loc' bufs') as ([[loc'' bufs''] acts'] & ->). eauto.
Qed.

Lemma append_inj_l (a x y : str) : a ++ x = a ++ y -> x = y.
Proof.
  induction a as [| c a IH]; cbn [String.app String.append]; [tauto |].
  intros Heq. inversion Heq. auto.
Qed.

Lemma make_key_inj (s1 s2 : str) :
  make_key env client_address (PyStr s1) = make_key env client_address (PyStr s2) ->
  s1 = s2.
Proof.
  unfold make_key. cbn [fmt]. intros Heq.
  apply append_inj_l in Heq. now apply append_inj_l in Heq.
Qed.

Lemma key_set_make_key (source : pyval) :
  key_set (Some (make_key env client_address source))
  = Some (make_key env client_address source).
Proof.
  unfold key_set, make_key.
  destruct client_address; reflexivity.
Qed.

Lemma on_control_start (loc : locals)
    (audio_buffers : gmap str (list Byte.byte)) (source : str) :
  on_control env client_address loc audio_buffers (start_data source)
  = Returned ({| source_type := PyStr source;
                 buffer_key := Some (make_key env client_address (PyStr source)) |},
              <[make_key env client_address (PyStr source) := []]> audio_buffers,
              [Send (PyDict [ (u "type", PyStr (u "started"));
                              (u "source", PyStr source) ])]).
Proof. reflexivity. Qed.

(** C4, what the code does: after two [start] messages with different source
    labels and the disconnect, the bytearray created by the first [start] is
    still in [audio_buffers]; only the one of the last [start] is removed. *)
Theorem C4_disconnect_leaves_earlier_buffer
    (audio_buffers : gmap str (list Byte.byte))
    (t1 t2 s1 s2 : str) :
  json_loads env t1 = Returned (start_data s1) ->
  json_loads env t2 = Returned (start_data s2) ->
  s1 <> s2 ->
  exists bufs' acts,
    handle_websocket env client_address audio_buffers [TextMessage t1; TextMessage t2]
      = Some (bufs', acts)
    /\ bufs' !! make_key env client_address (PyStr s1) = Some []
    /\ bufs' !! make_key env client_address (PyStr s2) = None.
Proof.
  intros H1 H2 Hne.
  assert (Hkeys : make_key env client_address (PyStr s2)
                  <> make_key env client_address (PyStr s1)).
  { intros Heq. apply make_key_inj in Heq. congruence. }
  unfold handle_websocket. cbn [receive on_message].
  rewrite H1, on_control_start, H2, on_control_start.
  eexists _, _. split; [reflexivity |].
  unfold cleanup. cbn [buffer_key]. rewrite key_set_make_key.
  rewrite lookup_insert_eq. split.
  - rewrite lookup_delete_ne by exact Hkeys.
    rewrite lookup_insert_ne by exact Hkeys.
    apply lookup_insert_eq.
  - apply lookup_delete_eq.
Qed.

End Session.

(** C10 at a concrete input: the first binary message of a connection. *)
Lemma C10_buffer_below_chunk_size_witness :
  exists loc' bufs' acts,
    on_message quiet_env sample_address initial_locals ∅ (BinaryMessage (silence 49000))
      = Some (loc', bufs', acts)
    /\ forall key buf,
         key_set (buffer_key loc') = Some key ->
         bufs' !! key = Some buf ->
         len buf < MIN_CHUNK_SIZE /\ len buf < MAX_BUFFER_SIZE.
Proof.
  exact (C10_buffer_below_chunk_size quiet_env sample_address initial_locals ∅
           (silence 49000)).
Defined.

(** C9 at a concrete input: a text that is not JSON, followed by a ping. *)
Lemma C9_invalid_json_ignored_witness :
  on_message quiet_env sample_address initial_locals ∅ (TextMessage (u "not json"))
    = Some (initial_locals, ∅, [])
  /\ receive quiet_env sample_address initial_locals ∅
       [TextMessage (u "not json"); TextMessage ping_text]
     = match receive quiet_env sample_address initial_locals ∅ [TextMessage ping_text] with
       | Some (loc', bufs', acts') => Some (loc', bufs', [] ++ acts')
       | None => None
       end.
Proof.
  destruct (C9_invalid_json_ignored quiet_env sample_address initial_locals ∅
              (u "not json") (JSONDecodeError (u "Expecting value: line 1 column 1 (char 0)"))
              [TextMessage ping_text]) as (Hmsg & _ & _ & Hloop).
  - vm_compute. reflexivity.
  - split; [exact Hmsg | exact Hloop].
Defined.

(** C4 at a concrete input: [start] for the microphone, [start] for the
    system audio, then the disconnect. *)
Lemma C4_disconnect_leaves_earlier_buffer_witness :
  exists bufs' acts,
    handle_websocket quiet_env sample_address ∅
      [TextMessage (start_text (u "microphone")); TextMessage (start_text (u "system"))]
      = Some (bufs', acts)
    /\ bufs' !! make_key quiet_env sample_address (PyStr (u "microphone")) = Some []
    /\ bufs' !! make_key quiet_env sample_address (PyStr (u "system")) = None.
Proof.
  apply (C4_disconnect_leaves_earlier_buffer quiet_env sample_address ∅
           (start_text (u "microphone")) (start_text (u "system")) (u "microphone") (u "system")).
  - vm_compute. reflexivity.
  - vm_compute. reflexivity.
  - discriminate.
Defined.

(** ** The worker seen from the streaming session *)

Lemma pcm_bytes_to_wav_even (pcm_bytes : list Byte.byte) :
  2000 <= len pcm_bytes < WAV_DATA_LIMIT -> len pcm_bytes mod 2 = 0 ->
  pcm_bytes_to_wav pcm_bytes = Returned (WaveFile pcm_bytes).
Proof.
  intros Hlen Heven. unfold pcm_bytes_to_wav.
  destruct (Z.ltb_spec (len pcm_bytes) 2000); [lia |].
  rewrite Heven. cbn [Z.eqb negb].
  destruct (Z.eqb_spec (len pcm_bytes / 2) 0) as [Hzero | _].
  { pose proof (Z.div_mod (len pcm_bytes) 2). lia. }
  destruct (Z.leb_spec WAV_DATA_LIMIT (len pcm_bytes)); [lia | reflexivity].
Qed.

(** With a model that returns no segment the worker returns [None]. *)
Lemma transcribe_audio_chunk_quiet (audio_chunk : list Byte.byte) :
  2000 <= len audio_chunk < WAV_DATA_LIMIT -> len audio_chunk mod 2 = 0 ->
  transcribe_audio_chunk quiet_env audio_chunk false
  = ([CallModel (WaveFile audio_chunk)], Returned PyNone).
Proof.
  intros Hlen Heven. unfold transcribe_audio_chunk.
  rewrite (pcm_bytes_to_wav_even _ Hlen Heven).
  cbn [lift bind file_size].
  destruct (Z.ltb_spec (44 + len audio_chunk) 44); [lia |].
  reflexivity.
Qed.

(** Whenever the worker returns [None], the client is sent an [error]
    message: [result.get] is called on [None]. *)
Lemma process_audio_chunk_none (env : Env) (source : pyval)
    (audio_chunk : list Byte.byte) (calls : list call) :
  transcribe_audio_chunk env audio_chunk false = (calls, Returned PyNone) ->
  process_audio_chunk env source audio_chunk
  = (calls,
     [ PyDict [ (u "type", PyStr (u "error")); (u "source", source);
                (u "message", PyStr (u "'NoneType' object has no attribute 'get'")) ] ]).
Proof.
  intros Hnone. unfold process_audio_chunk. rewrite Hnone.
  cbn. rewrite app_nil_r. reflexivity.
Qed.

(** The first binary message of a connection, carrying exactly one chunk. *)
Lemma on_message_first_chunk (env : Env) (client_address : str)
    (data : list Byte.byte) :
  len data = MIN_CHUNK_SIZE ->
  on_message env client_address initial_locals ∅ (BinaryMessage data)
  = Some ({| source_type := PyStr (u "microphone");
             buffer_key := Some (make_key env client_address (PyStr (u "microphone"))) |},
          <[make_key env client_address (PyStr (u "microphone")) := []]>
            (<[make_key env client_address (PyStr (u "microphone")) := []]> ∅),
          [CreateTask (PyStr (u "microphone")) data]).
Proof.
  intros Hlen. pose proof policy_constants as (_ & _ & Hmax).
  unfold on_message, on_binary.
  cbn [initial_locals source_type truthy negb buffer_key].
  rewrite lookup_empty, key_set_make_key, lookup_insert_eq.
  rewrite feed_empty_small by lia. rewrite drain_exact by exact Hlen.
  reflexivity.
Qed.

(** C1, what the code does: one binary message of exactly [MIN_CHUNK_SIZE]
    all-zero bytes on a fresh connection gives exactly one chunk, tagged
    [microphone], and empties the buffer; the model finds no text in it, the
    worker returns [None], and the message sent for the chunk is of type
    [error], not [silence]. *)
Theorem C1_silent_chunk_reported_as_error :
  (exists loc' bufs',
      on_message quiet_env sample_address initial_locals ∅
        (BinaryMessage (silence MIN_CHUNK_SIZE))
        = Some (loc', bufs', [CreateTask (PyStr (u "microphone")) (silence MIN_CHUNK_SIZE)])
      /\ bufs' !! make_key quiet_env sample_address (PyStr (u "microphone")) = Some [])
  /\ process_audio_chunk quiet_env (PyStr (u "microphone")) (silence MIN_CHUNK_SIZE)
     = ([CallModel (WaveFile (silence MIN_CHUNK_SIZE))],
        [ PyDict [ (u "type", PyStr (u "error")); (u "source", PyStr (u "microphone"));
                   (u "message", PyStr (u "'NoneType' object has no attribute 'get'")) ] ]).
Proof.
  assert (Hlen : len (silence MIN_CHUNK_SIZE) = MIN_CHUNK_SIZE).
  { apply len_silence. policy_lia. }
  split.
  - eexists _, _. split.
    + apply on_message_first_chunk. exact Hlen.
    + apply lookup_insert_eq.
  - apply process_audio_chunk_none. apply transcribe_audio_chunk_quiet.
    + rewrite Hlen. policy_lia.
    + rewrite Hlen. reflexivity.
Qed.

(** *** The [silence] branch cannot be reached *)

Lemma rstrip_cons (c : N) (s : str) :
  rstrip (c :: s) =
    match rstrip s with
    | [] => if isspace c then [] else [c]
    | r => c :: r
    end.
Proof. reflexivity. Qed.

Lemma rstrip_idempotent (s : str) : rstrip (rstrip s) = rstrip s.
Proof.
  induction s as [| c s IH]; [reflexivity |].
  rewrite rstrip_cons. destruct (rstrip s) as [| c' r] eqn:Hr.
  - destruct (isspace c) eqn:Hc; [reflexivity |].
    rewrite rstrip_cons. cbn [rstrip]. rewrite Hc. reflexivity.
  - rewrite rstrip_cons, IH. reflexivity.
Qed.

Lemma lstrip_head (s : str) :
  match lstrip s with
  | [] => True
  | c :: _ => isspace c = false
  end.
Proof.
  induction s as [| c s IH]; [exact I |].
  cbn [lstrip]. destruct (isspace c) eqn:Hc; [exact IH | exact Hc].
Qed.

Lemma strip_idempotent (s : str) : strip (strip s) = strip s.
Proof.
  unfold strip. pose proof (lstrip_head s) as Hhead.
  destruct (lstrip s) as [| c t]; [reflexivity |].
  assert (Hl : lstrip (rstrip (c :: t)) = rstrip (c :: t)).
  { rewrite rstrip_cons. destruct (rstrip t); rewrite ?Hhead; cbn [lstrip];
      rewrite Hhead; reflexivity. }
  rewrite Hl. apply rstrip_idempotent.
Qed.

(** What the worker can return: [None], or a dict whose [text] is the
    non-empty, already stripped transcript. *)
Lemma transcribe_audio_chunk_result (env : Env) (audio_data : list Byte.byte)
    (is_webm : bool) (calls : list call) (result : pyval) :
  transcribe_audio_chunk env audio_data is_webm = (calls, Returned result) ->
  result = PyNone
  \/ exists full_text lang,
       result = PyDict [ (u "text", PyStr full_text); (u "language", PyStr lang) ]
       /\ truthy (PyStr full_text) = true
       /\ strip full_text = full_text.
Proof.
  unfold transcribe_audio_chunk. intros Hrun.
  destruct (if is_webm then _ else _) as [calls0 [wav | e]];
    cbn [bind] in Hrun; [| discriminate].
  destruct (file_size wav <? 44); [cbn [raise] in Hrun; discriminate |].
  destruct (call_model env wav) as [calls1 [[[segments | e] info] | e]];
    cbn [bind lift] in Hrun; [| discriminate | discriminate].
  destruct (truthy (PyStr (collect_text env segments))) eqn:Htext;
    cbn [ret] in Hrun; inversion Hrun; subst; [right | left; reflexivity].
  eexists _, _. split; [reflexivity |]. split; [exact Htext |].
  unfold collect_text. apply strip_idempotent.
Qed.

Lemma get_text (full_text lang : str) (default : pyval) :
  get (PyDict [ (u "text", PyStr full_text); (u "language", PyStr lang) ])
      (u "text") default
  = Returned (PyStr full_text).
Proof. reflexivity. Qed.

Lemma get_language (full_text lang : str) (default : pyval) :
  get (PyDict [ (u "text", PyStr full_text); (u "language", PyStr lang) ])
      (u "language") default
  = Returned (PyStr lang).
Proof. reflexivity. Qed.

(** No run of [process_audio_chunk] sends a message of type [silence]. *)
Lemma process_audio_chunk_never_silence (env : Env) (source : pyval)
    (audio_chunk : list Byte.byte) (message : pyval) :
  In message (snd (process_audio_chunk env source audio_chunk)) ->
  get message (u "type") PyNone <> Returned (PyStr (u "silence")).
Proof.
  unfold process_audio_chunk.
  destruct (transcribe_audio_chunk env audio_chunk false) as [calls [result | e]] eqn:Hrun.
  - destruct (transcribe_audio_chunk_result _ _ _ _ _ Hrun)
      as [-> | (full_text & lang & -> & Htext & Hstrip)].
    + cbn. intros [<- | []]. vm_compute. discriminate.
    + cbn [bind]. rewrite !get_text, get_language.
      cbn [bind lift]. rewrite Htext.
      cbn [bind lift strip_method]. rewrite Hstrip, Htext.
      cbn. intros [<- | []]. vm_compute. discriminate.
  - cbn. intros [<- | []]. vm_compute. discriminate.
Qed.

(** ** Post-processing of the segments *)

Lemma collect_segment_dropped (env : Env) (text_parts : list str) (segment : Segment) :
  collect_segment env text_parts segment
  = if dropped env segment then text_parts else text_parts ++ [strip (text segment)].
Proof.
  unfold collect_segment, dropped, high_no_speech, on_denylist.
  set (t := strip (text segment)). clearbody t.
  destruct (Z.ltb_spec (len t) 2) as [Hshort | Hlong].
  - destruct (Z.leb_spec 2 (len t)); [lia |].
    rewrite andb_false_r. reflexivity.
  - destruct (Z.leb_spec 2 (len t)); [| lia].
    assert (Ht : truthy (PyStr t) = true).
    { destruct t; [unfold len in Hlong; cbn in Hlong; lia | reflexivity]. }
    rewrite Ht. cbn [andb orb].
    destruct (match no_speech_prob segment with Some p => _ | None => _ end);
      [reflexivity |].
    cbn [orb]. destruct (existsb _ hallucination_patterns); reflexivity.
Qed.

Lemma fold_collect_segment (env : Env) (segments : list Segment) :
  forall text_parts,
    fold_left (collect_segment env) segments text_parts
    = text_parts ++ map (fun s => strip (text s))
                        (List.filter (fun s => negb (dropped env s)) segments).
Proof.
  induction segments as [| segment segments IH]; intros text_parts.
  - cbn. now rewrite app_nil_r.
  - cbn [fold_left List.filter]. rewrite IH, collect_segment_dropped.
    destruct (dropped env segment); cbn [negb map]; [reflexivity |].
    now rewrite <- app_assoc.
Qed.

(** The length test of line 313 counts characters, and [strip] removes every
    kind of white space: a note after a space, or between a no-break space
    and an ideographic space, is one character and is dropped, whatever the
    collaborators. *)
Lemma collect_text_one_character (env : Env) :
  collect_text env [ {| text := [32; 9834]%N; no_speech_prob := None |} ] = []
  /\ collect_text env [ {| text := [160; 9834; 12288]%N; no_speech_prob := None |} ] = [].
Proof. split; vm_compute; reflexivity. Qed.

(** C6, as the code has it.  The text returned for a list of segments is the
    stripped, space-joined text of the segments that are kept, in order, and
    a segment is dropped exactly when its stripped text has fewer than two
    characters, or its no-speech probability exceeds 0.5, or its lower-cased
    stripped text contains a phrase of the denylist. *)
Theorem C6_segments_kept (env : Env) (segments : list Segment) :
  collect_text env segments
  = strip (join (u " ") (map (fun s => strip (text s))
                             (List.filter (fun s => negb (dropped env s)) segments))).
Proof. unfold collect_text. now rewrite fold_collect_segment. Qed.

(** C6 as the specification words it fails: a one-letter segment with a low
    no-speech probability and no denylisted phrase is dropped all the same. *)
Lemma C6_short_segment_dropped :
  spec_dropped quiet_env {| text := u " I"; no_speech_prob := Some 0.25%float |} = false
  /\ collect_text quiet_env short_and_long = u "hello there"
  /\ spec_collect_text quiet_env short_and_long = u "I hello there"
  /\ collect_text quiet_env short_and_long <> spec_collect_text quiet_env short_and_long.
Proof. vm_compute. repeat split; discriminate. Qed.

(** ** The one-shot path *)

(** C7.  A payload shorter than the threshold, 2000 bytes for raw PCM and
    1000 bytes for a WebM container, gets the empty success result and no
    collaborator is called; the handler sends it with status 200 whenever the
    request announces a length other than 0, the read of its body gives that
    payload, the payload sniffs to that kind and the result arrives in
    time. *)
Theorem C7_short_payload_short_circuits
    (env : Env) (audio_data : list Byte.byte) (is_webm : bool) :
  len audio_data < (if is_webm then 1000 else 2000) ->
  transcribe_audio_request env audio_data is_webm
  = ([], PyDict [ (u "success", PyBool true); (u "text", PyStr (u ""));
                  (u "language", PyStr (u "en")) ])
  /\ forall (req : request) (n : Z),
       content_length req = Returned n ->
       n <> 0 ->
       read env n (rfile req) = Returned audio_data ->
       sniff_webm env (content_type req) audio_data = is_webm ->
       handle_transcribe env req true
       = ([], SendJson 200 (PyDict [ (u "success", PyBool true); (u "text", PyStr (u ""));
                                     (u "language", PyStr (u "en")) ])).
Proof.
  intros Hshort.
  assert (Hreq : transcribe_audio_request env audio_data is_webm
                 = ([], PyDict [ (u "success", PyBool true); (u "text", PyStr (u ""));
                                 (u "language", PyStr (u "en")) ])).
  { unfold transcribe_audio_request.
    destruct is_webm; cbn [negb].
    - destruct (Z.ltb_spec (len audio_data) 1000) as [_ | Hge]; [reflexivity | lia].
    - destruct (Z.ltb_spec (len audio_data) 2000) as [_ | Hge]; [reflexivity | lia]. }
  split; [exact Hreq |].
  intros req n Hlength Hbody Hread Hsniff. unfold handle_transcribe.
  rewrite Hlength. destruct (Z.eqb_spec n 0) as [Hzero | _]; [contradiction |].
  rewrite Hread, Hsniff, Hreq. reflexivity.
Qed.

(** C7 at a concrete input: a 500-byte PCM body. *)
Lemma C7_short_payload_short_circuits_witness :
  handle_transcribe quiet_env (pcm_request 500) true
  = ([], SendJson 200 (PyDict [ (u "success", PyBool true); (u "text", PyStr (u ""));
                                (u "language", PyStr (u "en")) ])).
Proof.
  refine (proj2 (C7_short_payload_short_circuits quiet_env (silence 500) false _)
            (pcm_request 500) 500 _ _ _ _).
  - vm_compute. reflexivity.
  - reflexivity.
  - lia.
  - vm_compute. reflexivity.
  - vm_compute. reflexivity.
Defined.

(** *** The response envelope *)

Lemma transcribe_audio_request_envelope (env : Env) (audio_data : list Byte.byte)
    (is_webm : bool) :
  envelope (snd (transcribe_audio_request env audio_data is_webm)) = true.
Proof.
  unfold transcribe_audio_request.
  destruct (len audio_data <? (if negb is_webm then 2000 else 1000)); [reflexivity |].
  unfold bind at 1.
  destruct (transcribe_audio_chunk env audio_data is_webm) as [calls [result | e]] eqn:Hrun;
    [| reflexivity].
  destruct (transcribe_audio_chunk_result _ _ _ _ _ Hrun)
    as [-> | (full_text & lang & -> & _ & _)]; reflexivity.
Qed.

(** C3, as the code has it.  For a request that announces a length other
    than 0 and whose body the handler can read, the answer is a JSON object
    that always has [success] and [text]; with [success = true] it has the
    string [language] and no [error], with [success = false] it has the
    string [error] and no [language]. *)
Theorem C3_response_envelope
    (env : Env) (req : request) (in_time : bool) (n : Z) (audio_data : list Byte.byte) :
  content_length req = Returned n ->
  n <> 0 ->
  read env n (rfile req) = Returned audio_data ->
  exists calls code body,
    handle_transcribe env req in_time = (calls, SendJson code body)
    /\ envelope body = true.
Proof.
  intros Hlength Hbody Hread. unfold handle_transcribe. rewrite Hlength.
  destruct (Z.eqb_spec n 0) as [Hzero | _]; [contradiction |].
  rewrite Hread.
  pose proof (transcribe_audio_request_envelope env audio_data
                (sniff_webm env (content_type req) audio_data)) as Henv.
  destruct (transcribe_audio_request env _ _) as [calls result].
  destruct in_time; eexists _, _, _; (split; [reflexivity |]);
    [exact Henv | reflexivity].
Qed.

(** C3 at a concrete input: 2000 bytes of PCM and a model that fails. *)
Lemma C3_response_envelope_witness :
  exists calls code body,
    handle_transcribe broken_env (pcm_request 2000) true = (calls, SendJson code body)
    /\ envelope body = true.
Proof.
  apply (C3_response_envelope broken_env (pcm_request 2000) true 2000 (silence 2000)).
  - reflexivity.
  - lia.
  - vm_compute. reflexivity.
Defined.

(** C3 as the specification words it fails: when the model raises, the body
    sent has no [language]. *)
Lemma C3_failure_has_no_language :
  handle_transcribe broken_env (pcm_request 2000) true
  = ([CallModel (WaveFile (silence 2000))],
     SendJson 200 (PyDict [ (u "success", PyBool false); (u "error", PyStr (u "model failure"));
                            (u "text", PyStr (u "")) ]))
  /\ field (PyDict [ (u "success", PyBool false); (u "error", PyStr (u "model failure"));
                     (u "text", PyStr (u "")) ]) (u "language") = None
  /\ spec_envelope
       (PyDict [ (u "success", PyBool false); (u "error", PyStr (u "model failure"));
                 (u "text", PyStr (u "")) ]) = false.
Proof. vm_compute. repeat split. Qed.

(** * Further properties of the code *)

(** ** The WAV writer *)

Lemma slice_to_minus_one {A : Type} (b : list A) :
  slice_to (-1) b = take (length b - 1) b.
Proof.
  unfold slice_to, norm_index, len. cbn [Z.ltb Z.compare].
  f_equal. lia.
Qed.

Lemma pcm_bytes_to_wav_cut (pcm_bytes : list Byte.byte) :
  2000 <= len pcm_bytes < WAV_DATA_LIMIT ->
  pcm_bytes_to_wav pcm_bytes
  = Returned (WaveFile (take (Z.to_nat (2 * (len pcm_bytes / 2))) pcm_bytes)).
Proof.
  intros Hlen.
  pose proof (Z.div_mod (len pcm_bytes) 2 ltac:(lia)) as Hdm.
  pose proof (Z.mod_pos_bound (len pcm_bytes) 2 ltac:(lia)) as Hmod.
  unfold pcm_bytes_to_wav.
  destruct (Z.ltb_spec (len pcm_bytes) 2000); [lia |].
  destruct (Z.eqb_spec (len pcm_bytes mod 2) 0) as [Heven | Hodd]; cbn [negb].
  - destruct (Z.eqb_spec (len pcm_bytes / 2) 0); [lia |].
    destruct (Z.leb_spec WAV_DATA_LIMIT (len pcm_bytes)); [lia |].
    rewrite take_ge by (unfold len in *; lia). reflexivity.
  - rewrite slice_to_minus_one.
    assert (Hcut : (length pcm_bytes - 1)%nat = Z.to_nat (2 * (len pcm_bytes / 2)))
      by (unfold len in *; lia).
    rewrite Hcut.
    assert (Hframes : len (take (Z.to_nat (2 * (len pcm_bytes / 2))) pcm_bytes)
                      = 2 * (len pcm_bytes / 2)).
    { rewrite len_take; unfold len in *; lia. }
    rewrite Hframes.
    destruct (Z.eqb_spec (2 * (len pcm_bytes / 2) / 2) 0) as [Hzero | _].
    { rewrite (Z.mul_comm 2), Z.div_mul in Hzero by lia. lia. }
    destruct (Z.leb_spec WAV_DATA_LIMIT (2 * (len pcm_bytes / 2))); [lia | reflexivity].
Qed.

(** The code raises for data that does not fit a WAV header. *)
Lemma pcm_bytes_to_wav_too_long (pcm_bytes : list Byte.byte) :
  WAV_DATA_LIMIT <= len pcm_bytes -> pcm_bytes_to_wav pcm_bytes = Raised StructError.
Proof.
  intros Hlen.
  pose proof (Z.div_mod (len pcm_bytes) 2 ltac:(lia)) as Hdm.
  pose proof (Z.mod_pos_bound (len pcm_bytes) 2 ltac:(lia)) as Hmod.
  unfold pcm_bytes_to_wav, WAV_DATA_LIMIT in *.
  destruct (Z.ltb_spec (len pcm_bytes) 2000); [lia |].
  destruct (Z.eqb_spec (len pcm_bytes mod 2) 0) as [Heven | Hodd]; cbn [negb].
  - destruct (Z.eqb_spec (len pcm_bytes / 2) 0); [lia |].
    destruct (Z.leb_spec 4294967260 (len pcm_bytes)); [reflexivity | lia].
  - rewrite slice_to_minus_one.
    assert (Hframes : len (take (length pcm_bytes - 1) pcm_bytes) = len pcm_bytes - 1).
    { rewrite len_take; unfold len in *; lia. }
    rewrite Hframes.
    destruct (Z.eqb_spec ((len pcm_bytes - 1) / 2) 0) as [Hzero | _].
    { pose proof (Z.div_mod (len pcm_bytes - 1) 2 ltac:(lia)).
      pose proof (Z.mod_pos_bound (len pcm_bytes - 1) 2 ltac:(lia)). lia. }
    destruct (Z.leb_spec 4294967260 (len pcm_bytes - 1)); [reflexivity | lia].
Qed.

(** X1.  [pcm_bytes_to_wav] accepts a payload exactly when it has at least
    2000 bytes and fewer than [WAV_DATA_LIMIT = 2^32 - 36]: the frames
    written are then the payload cut to a whole number of 16-bit samples,
    that is the payload itself when its length is even and the payload
    without its last byte when it is odd.  A shorter payload is refused with
    a [ValueError], a longer one fails with the [struct.error] of the WAV
    header. *)
Theorem pcm_bytes_to_wav_frames (pcm_bytes : list Byte.byte) :
  (2000 <= len pcm_bytes < WAV_DATA_LIMIT ->
   exists frames,
     pcm_bytes_to_wav pcm_bytes = Returned (WaveFile frames)
     /\ frames = take (Z.to_nat (2 * (len pcm_bytes / 2))) pcm_bytes
     /\ len frames mod 2 = 0
     /\ len frames = len pcm_bytes - len pcm_bytes mod 2)
  /\ (len pcm_bytes < 2000 ->
      exists msg, pcm_bytes_to_wav pcm_bytes = Raised (ValueError msg))
  /\ (WAV_DATA_LIMIT <= len pcm_bytes ->
      pcm_bytes_to_wav pcm_bytes = Raised StructError).
Proof.
  split; [| split].
  - intros Hlen.
    pose proof (Z.div_mod (len pcm_bytes) 2 ltac:(lia)) as Hdm.
    pose proof (Z.mod_pos_bound (len pcm_bytes) 2 ltac:(lia)) as Hmod.
    exists (take (Z.to_nat (2 * (len pcm_bytes / 2))) pcm_bytes).
    assert (Hframes : len (take (Z.to_nat (2 * (len pcm_bytes / 2))) pcm_bytes)
                      = 2 * (len pcm_bytes / 2)).
    { rewrite len_take; unfold len in *; lia. }
    split; [now apply pcm_bytes_to_wav_cut | split; [reflexivity | split]].
    + rewrite Hframes. rewrite (Z.mul_comm 2). apply Z.mod_mul. lia.
    + rewrite Hframes. lia.
  - intros Hshort. unfold pcm_bytes_to_wav.
    destruct (Z.ltb_spec (len pcm_bytes) 2000); [eauto | lia].
  - apply pcm_bytes_to_wav_too_long.
Qed.

(** X1 at a concrete input: 2001 zero bytes are written as 2000. *)
Lemma pcm_bytes_to_wav_frames_witness :
  exists frames,
    pcm_bytes_to_wav (silence 2001) = Returned (WaveFile frames)
    /\ frames = take (Z.to_nat (2 * (len (silence 2001) / 2))) (silence 2001)
    /\ len frames mod 2 = 0
    /\ len frames = len (silence 2001) - len (silence 2001) mod 2.
Proof.
  apply (proj1 (pcm_bytes_to_wav_frames (silence 2001))).
  rewrite len_silence; policy_lia.
Defined.

(** ** More on the chunker *)

Lemma extract_chunks_nil (fuel : nat) : extract_chunks fuel [] = Some ([], []).
Proof. destruct fuel; reflexivity. Qed.

Lemma extract_chunks_head (fuel : nat) (buf : list Byte.byte) evs rest :
  extract_chunks fuel buf = Some (evs, rest) ->
  evs = [] \/ exists c evs', evs = EvChunk c :: evs'.
Proof.
  destruct fuel as [| fuel]; [cbn [extract_chunks] | rewrite extract_chunks_step];
    destruct (len buf <? MIN_CHUNK_SIZE); intros Hrun; try discriminate.
  - inversion Hrun. now left.
  - inversion Hrun. now left.
  - destruct (extract_chunks fuel _) as [[evs' rest'] |]; [| discriminate].
    inversion Hrun. right. eauto.
Qed.

Lemma trim_overflow_head (acc : list Byte.byte) :
  ~ starts_with_clear (fst (trim_overflow acc)).
Proof. unfold trim_overflow. destruct (MAX_BUFFER_SIZE <? len acc); cbn; tauto. Qed.

Lemma feed_head (buf message : list Byte.byte) evs rest :
  feed buf message = Some (evs, rest) -> ~ starts_with_clear evs.
Proof.
  unfold feed, trim_overflow.
  destruct (MAX_BUFFER_SIZE <? len (buf ++ message));
    destruct (drain _) as [[evs' rest'] |] eqn:Hd; intros Hfeed; inversion Hfeed; subst;
    cbn; [tauto |].
  destruct (extract_chunks_head _ _ _ _ Hd) as [-> | (c & evs'' & ->)]; cbn; tauto.
Qed.

Lemma feed_all_head (messages : list (list Byte.byte)) :
  forall (buf : list Byte.byte) evs rest,
    feed_all buf messages = Some (evs, rest) -> ~ starts_with_clear evs.
Proof.
  induction messages as [| m ms IH]; intros buf evs rest Hrun; cbn [feed_all] in Hrun.
  - inversion Hrun. cbn. tauto.
  - destruct (feed buf m) as [[evs1 buf1] |] eqn:Hfeed; [| discriminate].
    destruct (feed_all buf1 ms) as [[evs2 buf2] |] eqn:Hrest; [| discriminate].
    inversion Hrun; subst. pose proof (feed_head _ _ _ _ Hfeed) as H1.
    pose proof (IH _ _ _ Hrest) as H2.
    destruct evs1 as [| e evs1]; [exact H2 | exact H1].
Qed.

Lemma replay_chunk (c : list Byte.byte) (evs : list event) (rest : list Byte.byte) :
  ~ starts_with_clear evs ->
  replay (EvChunk c :: evs) rest
  = slice_to (MIN_CHUNK_SIZE - OVERLAP_SIZE) c ++ replay evs rest.
Proof. intros Hhead. destruct evs as [| [] evs]; cbn in *; tauto. Qed.

Lemma starts_with_clear_app (evs later : list event) :
  (evs = [] \/ exists c evs', evs = EvChunk c :: evs') ->
  ~ starts_with_clear later -> ~ starts_with_clear (evs ++ later).
Proof. intros [-> | (c & evs' & ->)] Hlater; cbn; tauto. Qed.

(** A run of the loop splits its buffer into what the chunks account for and
    what is left. *)
Lemma extract_chunks_replay (fuel : nat) :
  forall (buf : list Byte.byte) evs rest,
    extract_chunks fuel buf = Some (evs, rest) ->
    exists prefix,
      buf = prefix ++ rest
      /\ forall later r,
           ~ starts_with_clear later ->
           replay (evs ++ later) r = prefix ++ replay later r.
Proof.
  pose proof policy_constants as (Ho & Hom & _).
  induction fuel as [| fuel IH]; intros buf evs rest Hrun.
  - cbn [extract_chunks] in Hrun.
    destruct (len buf <? MIN_CHUNK_SIZE); [| discriminate].
    inversion Hrun; subst. exists []. split; reflexivity.
  - rewrite extract_chunks_step in Hrun.
    destruct (Z.ltb_spec (len buf) MIN_CHUNK_SIZE) as [Hlt | Hge].
    { inversion Hrun; subst. exists []. split; reflexivity. }
    unfold after_chunk in Hrun.
    destruct (Z.ltb_spec MIN_CHUNK_SIZE (len buf)) as [Hgt | Hle]; cbn [fst snd app] in Hrun.
    + destruct (extract_chunks fuel _) as [[evs' rest'] |] eqn:Hrec; [| discriminate].
      inversion Hrun; subst. clear Hrun.
      destruct (IH _ _ _ Hrec) as (prefix & Hsplit & Hreplay).
      rewrite slice_from_drop in Hsplit by lia.
      exists (take (Z.to_nat (MIN_CHUNK_SIZE - OVERLAP_SIZE)) buf ++ prefix). split.
      * rewrite <- app_assoc, <- Hsplit. symmetry. apply take_drop.
      * intros later r Hlater. cbn [app].
        rewrite replay_chunk
          by (apply starts_with_clear_app; [eapply extract_chunks_head; eauto | exact Hlater]).
        rewrite Hreplay by exact Hlater.
        rewrite !slice_to_take by lia. rewrite take_take.
        replace (Z.to_nat (MIN_CHUNK_SIZE - OVERLAP_SIZE) `min` Z.to_nat MIN_CHUNK_SIZE)%nat
          with (Z.to_nat (MIN_CHUNK_SIZE - OVERLAP_SIZE)) by lia.
        now rewrite app_assoc.
    + rewrite extract_chunks_nil in Hrun. inversion Hrun; subst. clear Hrun.
      exists buf. split; [now rewrite app_nil_r |].
      intros later r Hlater. cbn [app replay].
      rewrite slice_to_take by lia. rewrite take_ge by (unfold len in *; lia).
      reflexivity.
Qed.

Lemma feed_replay (buf message : list Byte.byte) evs rest :
  feed buf message = Some (evs, rest) ->
  no_overflow evs ->
  exists prefix,
    buf ++ message = prefix ++ rest
    /\ forall later r,
         ~ starts_with_clear later ->
         replay (evs ++ later) r = prefix ++ replay later r.
Proof.
  unfold feed, trim_overflow. intros Hfeed Hno.
  destruct (MAX_BUFFER_SIZE <? len (buf ++ message)).
  - destruct (drain _) as [[evs' rest'] |]; [| discriminate].
    inversion Hfeed; subst. exfalso. eapply Hno. left. reflexivity.
  - destruct (drain (buf ++ message)) as [[evs' rest'] |] eqn:Hd; [| discriminate].
    inversion Hfeed; subst. exact (extract_chunks_replay _ _ _ _ Hd).
Qed.

Lemma feed_all_replay (messages : list (list Byte.byte)) :
  forall (buf : list Byte.byte) evs rest,
    feed_all buf messages = Some (evs, rest) ->
    no_overflow evs ->
    exists prefix,
      buf ++ concat messages = prefix ++ rest
      /\ forall later r,
           ~ starts_with_clear later ->
           replay (evs ++ later) r = prefix ++ replay later r.
Proof.
  induction messages as [| m ms IH]; intros buf evs rest Hrun Hno; cbn [feed_all] in Hrun.
  - inversion Hrun; subst. exists []. cbn [concat]. rewrite app_nil_r. split; reflexivity.
  - destruct (feed buf m) as [[evs1 buf1] |] eqn:Hfeed; [| discriminate].
    destruct (feed_all buf1 ms) as [[evs2 buf2] |] eqn:Hrest; [| discriminate].
    inversion Hrun; subst. clear Hrun.
    assert (Hno1 : no_overflow evs1).
    { intros n Hin. apply (Hno n). apply in_or_app. now left. }
    assert (Hno2 : no_overflow evs2).
    { intros n Hin. apply (Hno n). apply in_or_app. now right. }
    destruct (feed_replay _ _ _ _ Hfeed Hno1) as (p1 & Hsplit1 & Hreplay1).
    destruct (IH _ _ _ Hrest Hno2) as (p2 & Hsplit2 & Hreplay2).
    exists (p1 ++ p2). split.
    + cbn [concat]. rewrite app_assoc, Hsplit1, <- !app_assoc. now rewrite Hsplit2.
    + intros later r Hlater. rewrite <- !app_assoc.
      rewrite Hreplay1.
      * now rewrite Hreplay2.
      * pose proof (feed_all_head _ _ _ _ Hrest) as Hhead.
        destruct evs2 as [| e evs2]; [exact Hlater | exact Hhead].
Qed.

(** X2.  As long as no overflow is recorded, chunking loses nothing: the
    bytes the buffer held at first, followed by all bytes fed since, are the
    bytes the chunks account for in order, followed by what the buffer holds
    at the end. *)
Theorem feed_all_conserves_bytes
    (buf : list Byte.byte) (messages : list (list Byte.byte))
    (evs : list event) (rest : list Byte.byte) :
  feed_all buf messages = Some (evs, rest) ->
  no_overflow evs ->
  replay evs rest = buf ++ concat messages.
Proof.
  intros Hrun Hno.
  destruct (feed_all_replay messages buf evs rest Hrun Hno) as (prefix & Hsplit & Hreplay).
  specialize (Hreplay [] rest (fun H => H)).
  rewrite app_nil_r in Hreplay. cbn [replay] in Hreplay. congruence.
Qed.

(** A sample run: 100000 zero bytes fed at once to an empty buffer. *)
Lemma feed_all_silence_sample :
  feed_all [] [silence 100000]
  = Some ([EvChunk (silence MIN_CHUNK_SIZE); EvChunk (silence MIN_CHUNK_SIZE)],
          silence 36000).
Proof.
  cbn [feed_all].
  rewrite feed_empty_small by (rewrite len_silence; policy_lia).
  rewrite drain_silence_long by policy_lia.
  rewrite drain_silence_long by policy_lia.
  rewrite drain_short by (rewrite len_silence; policy_lia).
  replace (100000 - (MIN_CHUNK_SIZE - OVERLAP_SIZE) - (MIN_CHUNK_SIZE - OVERLAP_SIZE))
    with 36000 by policy_lia.
  reflexivity.
Qed.

(** X2 at a concrete input. *)
Lemma feed_all_conserves_bytes_witness :
  replay [EvChunk (silence MIN_CHUNK_SIZE); EvChunk (silence MIN_CHUNK_SIZE)]
         (silence 36000)
  = [] ++ concat [silence 100000].
Proof.
  apply (feed_all_conserves_bytes [] [silence 100000]).
  - exact feed_all_silence_sample.
  - intros excess [Hin | [Hin | []]]; discriminate.
Defined.

Lemma chunks_of_app (evs1 evs2 : list event) :
  chunks_of (evs1 ++ evs2) = chunks_of evs1 ++ chunks_of evs2.
Proof.
  induction evs1 as [| e evs1 IH]; [reflexivity |].
  destruct e; cbn [app chunks_of]; now rewrite IH.
Qed.

Lemma chunks_of_after_chunk (buf : list Byte.byte) :
  chunks_of (fst (after_chunk buf)) = [].
Proof. unfold after_chunk. destruct (MIN_CHUNK_SIZE <? len buf); reflexivity. Qed.

Lemma chunk_count_step (n : Z) :
  MIN_CHUNK_SIZE <= n ->
  chunk_count n
  = 1 + chunk_count (if MIN_CHUNK_SIZE <? n then n - (MIN_CHUNK_SIZE - OVERLAP_SIZE) else 0).
Proof.
  intros Hge. unfold chunk_count, MIN_CHUNK_SIZE, OVERLAP_SIZE in *.
  destruct (Z.ltb_spec n 48000); [lia |].
  destruct (Z.ltb_spec 48000 n) as [Hgt | Hle].
  - destruct (Z.ltb_spec (n - (48000 - 16000)) 48000) as [Hsmall | Hbig].
    + rewrite Z.div_small by lia. lia.
    + replace (n - 48000) with (1 * (48000 - 16000) + (n - (48000 - 16000) - 48000)) by lia.
      rewrite Z.div_add_l by lia. lia.
  - replace (n - 48000) with 0 by lia. reflexivity.
Qed.

Lemma len_cons {A : Type} (x : A) (l : list A) : len (x :: l) = 1 + len l.
Proof. unfold len. cbn [length]. lia. Qed.

Lemma len_after_chunk (buf : list Byte.byte) :
  MIN_CHUNK_SIZE <= len buf ->
  len (snd (after_chunk buf))
  = if MIN_CHUNK_SIZE <? len buf then len buf - (MIN_CHUNK_SIZE - OVERLAP_SIZE) else 0.
Proof.
  intros Hge. pose proof policy_constants as (Ho & Hom & _). unfold after_chunk.
  destruct (Z.ltb_spec MIN_CHUNK_SIZE (len buf)); cbn [snd]; [| reflexivity].
  rewrite slice_from_drop by lia. rewrite len_drop. lia.
Qed.

Lemma extract_chunks_count (fuel : nat) :
  forall (buf : list Byte.byte) evs rest,
    extract_chunks fuel buf = Some (evs, rest) ->
    len (chunks_of evs) = chunk_count (len buf).
Proof.
  pose proof policy_constants as (Ho & Hom & _).
  induction fuel as [| fuel IH]; intros buf evs rest Hrun.
  - cbn [extract_chunks] in Hrun. unfold chunk_count.
    destruct (len buf <? MIN_CHUNK_SIZE); [| discriminate].
    now inversion Hrun.
  - rewrite extract_chunks_step in Hrun.
    destruct (Z.ltb_spec (len buf) MIN_CHUNK_SIZE) as [Hlt | Hge].
    { assert (Hnone : chunk_count (len buf) = 0).
      { unfold chunk_count.
        destruct (Z.ltb_spec (len buf) MIN_CHUNK_SIZE); [reflexivity | lia]. }
      inversion Hrun; subst. now rewrite Hnone. }
    destruct (extract_chunks fuel _) as [[evs' rest'] |] eqn:Hrec; [| discriminate].
    inversion Hrun; subst. clear Hrun.
    cbn [chunks_of]. rewrite chunks_of_app, chunks_of_after_chunk. cbn [app].
    rewrite chunk_count_step by exact Hge.
    rewrite len_cons, (IH _ _ _ Hrec), len_after_chunk by exact Hge. reflexivity.
Qed.

(** X3.  The number of chunks a binary message hands out depends only on the
    accumulated length, capped at [MAX_BUFFER_SIZE]: none below
    [MIN_CHUNK_SIZE], otherwise one plus one for every further
    [MIN_CHUNK_SIZE - OVERLAP_SIZE] bytes.  No message, however large, hands
    out more than four chunks. *)
Theorem feed_chunk_count (buf message : list Byte.byte) :
  exists evs rest,
    feed buf message = Some (evs, rest)
    /\ len (chunks_of evs)
       = chunk_count (Z.min (len buf + len message) MAX_BUFFER_SIZE)
    /\ len (chunks_of evs) <= 4.
Proof.
  pose proof policy_constants as (Ho & Hom & Hmax).
  destruct (feed_total buf message) as (evs & rest & Hfeed & _).
  exists evs, rest. split; [exact Hfeed |].
  assert (Hcount : len (chunks_of evs)
                   = chunk_count (Z.min (len buf + len message) MAX_BUFFER_SIZE)).
  { unfold feed, trim_overflow in Hfeed. rewrite len_app in Hfeed.
    destruct (Z.ltb_spec MAX_BUFFER_SIZE (len buf + len message)) as [Hbig | Hsmall].
    - destruct (drain _) as [[evs' rest'] |] eqn:Hd; [| discriminate].
      inversion Hfeed; subst. cbn [app chunks_of].
      rewrite (extract_chunks_count _ _ _ _ Hd).
      rewrite slice_from_drop by lia. rewrite len_drop, len_app.
      f_equal. lia.
    - destruct (drain _) as [[evs' rest'] |] eqn:Hd; [| discriminate].
      inversion Hfeed; subst. cbn [app].
      rewrite (extract_chunks_count _ _ _ _ Hd), len_app.
      f_equal. lia. }
  split; [exact Hcount |].
  rewrite Hcount. unfold chunk_count.
  destruct (Z.ltb_spec (Z.min (len buf + len message) MAX_BUFFER_SIZE) MIN_CHUNK_SIZE);
    [lia |].
  assert (Hdiv : (Z.min (len buf + len message) MAX_BUFFER_SIZE - MIN_CHUNK_SIZE)
                 / (MIN_CHUNK_SIZE - OVERLAP_SIZE) < 4).
  { apply Z.div_lt_upper_bound; policy_lia. }
  lia.
Qed.

(** X4.  How the transport cuts the audio does not matter while the buffer
    stays below a chunk: if the buffer with a first message is still shorter
    than [MIN_CHUNK_SIZE], feeding that message and then a second one gives
    the same chunks and the same buffer as feeding both at once. *)
Theorem feed_split_below_chunk (buf m1 m2 : list Byte.byte) :
  len buf + len m1 < MIN_CHUNK_SIZE ->
  feed_all buf [m1; m2] = feed buf (m1 ++ m2).
Proof.
  intros Hshort. pose proof policy_constants as (Ho & Hom & Hmax).
  assert (Hfirst : feed buf m1 = Some ([], buf ++ m1)).
  { unfold feed, trim_overflow. rewrite len_app.
    destruct (Z.ltb_spec MAX_BUFFER_SIZE (len buf + len m1)); [lia |].
    rewrite drain_short by (rewrite len_app; lia). reflexivity. }
  cbn [feed_all]. rewrite Hfirst.
  replace (feed (buf ++ m1) m2) with (feed buf (m1 ++ m2))
    by (unfold feed; now rewrite app_assoc).
  destruct (feed buf (m1 ++ m2)) as [[evs rest] |]; [| reflexivity].
  cbn [app]. now rewrite app_nil_r.
Qed.

(** X4 at a concrete input: 1000 bytes, then 49000 more. *)
Lemma feed_split_below_chunk_witness :
  feed_all [] [silence 1000; silence 49000] = feed [] (silence 1000 ++ silence 49000).
Proof.
  apply (feed_split_below_chunk [] (silence 1000) (silence 49000)).
  rewrite len_silence, len_nil; policy_lia.
Defined.

(** What is kept of a message that fills the cap on its own. *)
Lemma trim_overflow_large_message (buf message : list Byte.byte) :
  MAX_BUFFER_SIZE <= len message ->
  snd (trim_overflow (buf ++ message))
  = drop (Z.to_nat (len message - MAX_BUFFER_SIZE)) message.
Proof.
  intros Hlarge. pose proof policy_constants as (Ho & Hom & Hmax).
  pose proof (len_nonneg buf) as Hbuf.
  unfold trim_overflow. rewrite len_app.
  destruct (Z.ltb_spec MAX_BUFFER_SIZE (len buf + len message)) as [Hbig | Hsmall];
    cbn [snd].
  - rewrite slice_from_drop by lia.
    rewrite drop_app_ge by (unfold len in *; lia).
    f_equal. unfold len in *. lia.
  - assert (Hempty : buf = []) by (destruct buf; [reflexivity | unfold len in *; cbn in *; lia]).
    subst buf. cbn [app].
    replace (Z.to_nat (len message - MAX_BUFFER_SIZE)) with 0%nat by lia.
    reflexivity.
Qed.

Lemma feed_unfold (buf message : list Byte.byte) :
  feed buf message
  = match drain (snd (trim_overflow (buf ++ message))) with
    | Some (evs, rest) => Some (fst (trim_overflow (buf ++ message)) ++ evs, rest)
    | None => None
    end.
Proof. unfold feed. destruct (trim_overflow (buf ++ message)). reflexivity. Qed.

Lemma chunks_of_trim_overflow (acc : list Byte.byte) :
  chunks_of (fst (trim_overflow acc)) = [].
Proof. unfold trim_overflow. destruct (MAX_BUFFER_SIZE <? len acc); reflexivity. Qed.

(** X5.  A binary message of [MAX_BUFFER_SIZE] bytes or more pushes out
    everything buffered before it: the chunks handed out and the buffer left
    are the same whatever the buffer held. *)
Theorem feed_large_message_forgets_buffer (buf1 buf2 message : list Byte.byte) :
  MAX_BUFFER_SIZE <= len message ->
  exists evs1 evs2 rest,
    feed buf1 message = Some (evs1, rest)
    /\ feed buf2 message = Some (evs2, rest)
    /\ chunks_of evs1 = chunks_of evs2.
Proof.
  intros Hlarge. rewrite !feed_unfold.
  rewrite !(trim_overflow_large_message _ message Hlarge).
  destruct (drain_total (drop (Z.to_nat (len message - MAX_BUFFER_SIZE)) message))
    as (evs & rest & ->).
  eexists _, _, _. split; [reflexivity | split; [reflexivity |]].
  now rewrite !chunks_of_app, !chunks_of_trim_overflow.
Qed.

(** X5 at a concrete input: 160000 zero bytes after 1000 buffered ones, or
    after none. *)
Lemma feed_large_message_forgets_buffer_witness :
  exists evs1 evs2 rest,
    feed (silence 1000) (silence MAX_BUFFER_SIZE) = Some (evs1, rest)
    /\ feed [] (silence MAX_BUFFER_SIZE) = Some (evs2, rest)
    /\ chunks_of evs1 = chunks_of evs2.
Proof.
  apply (feed_large_message_forgets_buffer (silence 1000) [] (silence MAX_BUFFER_SIZE)).
  rewrite len_silence; policy_lia.
Defined.

(** ** More on the streaming session *)

Lemma extract_chunks_sizes (fuel : nat) :
  forall (buf : list Byte.byte) evs rest,
    extract_chunks fuel buf = Some (evs, rest) ->
    forall c, In c (chunks_of evs) -> len c = MIN_CHUNK_SIZE.
Proof.
  pose proof policy_constants as (Ho & Hom & _).
  induction fuel as [| fuel IH]; intros buf evs rest Hrun c Hin.
  - cbn [extract_chunks] in Hrun.
    destruct (len buf <? MIN_CHUNK_SIZE); [| discriminate].
    inversion Hrun; subst. destruct Hin.
  - rewrite extract_chunks_step in Hrun.
    destruct (Z.ltb_spec (len buf) MIN_CHUNK_SIZE) as [Hlt | Hge].
    { inversion Hrun; subst. destruct Hin. }
    destruct (extract_chunks fuel _) as [[evs' rest'] |] eqn:Hrec; [| discriminate].
    inversion Hrun; subst. clear Hrun.
    cbn [chunks_of] in Hin. rewrite chunks_of_app, chunks_of_after_chunk in Hin.
    destruct Hin as [<- | Hin]; [| eapply IH; eauto].
    rewrite slice_to_take by lia. rewrite len_take; unfold len in *; lia.
Qed.

Lemma feed_sizes (buf message : list Byte.byte) evs rest :
  feed buf message = Some (evs, rest) ->
  forall c, In c (chunks_of evs) -> len c = MIN_CHUNK_SIZE.
Proof.
  rewrite feed_unfold.
  destruct (drain _) as [[evs' rest'] |] eqn:Hd; [| discriminate].
  intros Hfeed c Hin. inversion Hfeed; subst.
  rewrite chunks_of_app, chunks_of_trim_overflow in Hin.
  eapply extract_chunks_sizes; eauto.
Qed.

Section SessionMore.

Context (env : Env) (client_address : str).

(** What is true of every task a message creates. *)
Definition well_formed_task (a : action) : Prop :=
  match a with
  | Send _ => True
  | CreateTask source chunk =>
      len chunk = MIN_CHUNK_SIZE
      /\ truthy source = true
      /\ pcm_bytes_to_wav chunk = Returned (WaveFile chunk)
  end.

Lemma on_control_sends (loc : locals) (audio_buffers : gmap str (list Byte.byte))
    (data : pyval) loc' bufs' acts :
  on_control env client_address loc audio_buffers data = Returned (loc', bufs', acts) ->
  Forall well_formed_task acts.
Proof.
  unfold on_control.
  destruct (get data (u "type") PyNone) as [msg_type | e]; [| discriminate].
  destruct (eq_str msg_type (u "start")).
  { destruct (get data (u "source") (PyStr (u "microphone"))); [| discriminate].
    intros H; inversion H; subst. repeat constructor. }
  destruct (eq_str msg_type (u "stop")).
  { intros H; inversion H; subst. repeat constructor. }
  destruct (eq_str msg_type (u "ping")); intros H; inversion H; subst; repeat constructor.
Qed.

Lemma well_formed_chunk (source : pyval) (chunk : list Byte.byte) :
  truthy source = true -> len chunk = MIN_CHUNK_SIZE ->
  well_formed_task (CreateTask source chunk).
Proof.
  intros Hsrc Hlen. cbn [well_formed_task]. split; [exact Hlen | split; [exact Hsrc |]].
  apply pcm_bytes_to_wav_even; rewrite Hlen; [policy_lia | reflexivity].
Qed.

Lemma on_message_tasks (loc : locals) (audio_buffers : gmap str (list Byte.byte))
    (message : ws_message) loc' bufs' acts :
  on_message env client_address loc audio_buffers message = Some (loc', bufs', acts) ->
  Forall well_formed_task acts.
Proof.
  destruct message as [s | b]; unfold on_message.
  - destruct (json_loads env s) as [data | e0].
    + destruct (on_control env client_address loc audio_buffers data)
        as [[[l m] a] | e] eqn:Hctl; intros H; inversion H; subst.
      * eapply on_control_sends; eauto.
      * repeat constructor.
    + destruct e0; intros H; inversion H; subst; repeat constructor.
  - unfold on_binary.
    destruct (negb (truthy (source_type loc))) eqn:Htruthy.
    + cbn [buffer_key source_type]. rewrite key_set_make_key.
      destruct (match audio_buffers !! _ with Some _ => _ | None => _ end !! _) as [buf |];
        [| intros H; inversion H; subst; repeat constructor].
      destruct (feed buf b) as [[evs rest] |] eqn:Hfeed; [| discriminate].
      intros H; inversion H; subst. apply Forall_forall. intros a Hin.
      apply list_elem_of_In, in_map_iff in Hin. destruct Hin as (c & <- & Hc).
      apply well_formed_chunk; [reflexivity | eapply feed_sizes; eauto].
    + destruct (key_set (buffer_key loc)) as [key |];
        [| intros H; inversion H; subst; constructor].
      destruct (audio_buffers !! key) as [buf |];
        [| intros H; inversion H; subst; repeat constructor].
      destruct (feed buf b) as [[evs rest] |] eqn:Hfeed; [| discriminate].
      intros H; inversion H; subst. apply Forall_forall. intros a Hin.
      apply list_elem_of_In, in_map_iff in Hin. destruct Hin as (c & <- & Hc).
      apply well_formed_chunk; [| eapply feed_sizes; eauto].
      now destruct (truthy (source_type loc')).
Qed.

Lemma receive_tasks (messages : list ws_message) :
  forall (loc : locals) (audio_buffers : gmap str (list Byte.byte)) loc' bufs' acts,
    receive env client_address loc audio_buffers messages = Some (loc', bufs', acts) ->
    Forall well_formed_task acts.
Proof.
  induction messages as [| m ms IH]; intros loc audio_buffers loc' bufs' acts Hrun;
    cbn [receive] in Hrun.
  - inversion Hrun; subst. constructor.
  - destruct (on_message env client_address loc audio_buffers m)
      as [[[loc1 bufs1] acts1] |] eqn:Hmsg; [| discriminate].
    destruct (receive env client_address loc1 bufs1 ms)
      as [[[loc2 bufs2] acts2] |] eqn:Hrest; [| discriminate].
    inversion Hrun; subst. apply Forall_app. split.
    + eapply on_message_tasks; eauto.
    + eapply IH; eauto.
Qed.

(** X6.  Whatever a client sends over a connection, every transcription task
    the connection creates gets a chunk of exactly [MIN_CHUNK_SIZE] bytes,
    which [pcm_bytes_to_wav] accepts and writes unchanged, and a source tag
    that is not empty or [None]. *)
Theorem handle_websocket_tasks
    (audio_buffers : gmap str (list Byte.byte)) (messages : list ws_message)
    (bufs' : gmap str (list Byte.byte)) (acts : list action)
    (source : pyval) (chunk : list Byte.byte) :
  handle_websocket env client_address audio_buffers messages = Some (bufs', acts) ->
  In (CreateTask source chunk) acts ->
  len chunk = MIN_CHUNK_SIZE
  /\ truthy source = true
  /\ pcm_bytes_to_wav chunk = Returned (WaveFile chunk).
Proof.
  unfold handle_websocket.
  destruct (receive env client_address initial_locals audio_buffers messages)
    as [[[loc bufs] acts0] |] eqn:Hrun; [| discriminate].
  intros H Hin. inversion H; subst. destruct Hin as [Hin | Hin]; [discriminate |].
  pose proof (receive_tasks _ _ _ _ _ _ Hrun) as Hall.
  rewrite Forall_forall in Hall.
  exact (Hall _ (proj2 (list_elem_of_In _ _) Hin)).
Qed.

End SessionMore.

(** X6 at a concrete input: one binary message of one chunk of silence. *)
Lemma handle_websocket_tasks_witness :
  len (silence MIN_CHUNK_SIZE) = MIN_CHUNK_SIZE
  /\ truthy (PyStr (u "microphone")) = true
  /\ pcm_bytes_to_wav (silence MIN_CHUNK_SIZE) = Returned (WaveFile (silence MIN_CHUNK_SIZE)).
Proof.
  eapply (handle_websocket_tasks quiet_env sample_address ∅
            [BinaryMessage (silence MIN_CHUNK_SIZE)]).
  - unfold handle_websocket. cbn [receive].
    rewrite on_message_first_chunk by (apply len_silence; policy_lia).
    reflexivity.
  - right. left. reflexivity.
Defined.

Section SessionTable.

Context (env : Env) (client_address : str).

(** The key in the locals, if any, was built from this connection's
    address. *)
Definition own_key (loc : locals) : Prop :=
  forall key, buffer_key loc = Some key ->
              exists source, key = make_key env client_address source.

(** [k] is not a key of this connection. *)
Definition foreign_key (k : str) : Prop :=
  forall source, k <> make_key env client_address source.

Lemma key_set_own (loc : locals) (key : str) :
  own_key loc -> key_set (buffer_key loc) = Some key ->
  exists source, key = make_key env client_address source.
Proof.
  intros Hown Hkey. apply Hown. unfold key_set in Hkey.
  destruct (buffer_key loc) as [key' |]; [| discriminate].
  destruct (str_eqb key' []); [discriminate | exact Hkey].
Qed.

Lemma on_control_foreign (loc : locals) (audio_buffers : gmap str (list Byte.byte))
    (data : pyval) loc' bufs' acts :
  own_key loc ->
  on_control env client_address loc audio_buffers data = Returned (loc', bufs', acts) ->
  own_key loc' /\ forall k, foreign_key k -> bufs' !! k = audio_buffers !! k.
Proof.
  intros Hown. unfold on_control.
  destruct (get data (u "type") PyNone) as [msg_type | e]; [| discriminate].
  destruct (eq_str msg_type (u "start")).
  { destruct (get data (u "source") (PyStr (u "microphone"))) as [source | e]; [| discriminate].
    intros H; inversion H; subst. split.
    - intros key Hkey. cbn [buffer_key] in Hkey. inversion Hkey. eauto.
    - intros k Hk. apply lookup_insert_ne. intros Heq. exact (Hk source (eq_sym Heq)). }
  destruct (eq_str msg_type (u "stop")).
  { intros H; inversion H; subst. split; [exact Hown |].
    intros k Hk.
    destruct (key_set (buffer_key loc')) as [key |] eqn:Hkey; [| reflexivity].
    destruct (audio_buffers !! key); [| reflexivity].
    destruct (key_set_own _ _ Hown Hkey) as (source & ->).
    apply lookup_delete_ne. intros Heq. exact (Hk source (eq_sym Heq)). }
  destruct (eq_str msg_type (u "ping")); intros H; inversion H; subst; split; auto.
Qed.

Lemma on_message_foreign (loc : locals) (audio_buffers : gmap str (list Byte.byte))
    (message : ws_message) loc' bufs' acts :
  own_key loc ->
  on_message env client_address loc audio_buffers message = Some (loc', bufs', acts) ->
  own_key loc' /\ forall k, foreign_key k -> bufs' !! k = audio_buffers !! k.
Proof.
  intros Hown. destruct message as [s | b]; unfold on_message.
  - destruct (json_loads env s) as [data | e0];
      [| destruct e0; intros H; inversion H; subst; split; auto].
    destruct (on_control env client_address loc audio_buffers data)
      as [[[l m] a] | e] eqn:Hctl; intros H; inversion H; subst.
    + eapply on_control_foreign; eauto.
    + split; auto.
  - unfold on_binary.
    destruct (negb (truthy (source_type loc))).
    + cbn [buffer_key source_type]. rewrite key_set_make_key.
      set (key := make_key env client_address (PyStr (u "microphone"))).
      assert (Hstart : forall k, foreign_key k ->
                match audio_buffers !! key with
                | Some _ => audio_buffers
                | None => <[key := []]> audio_buffers
                end !! k = audio_buffers !! k).
      { intros k Hk. destruct (audio_buffers !! key); [reflexivity |].
        apply lookup_insert_ne. intros Heq. exact (Hk _ (eq_sym Heq)). }
      destruct (match audio_buffers !! key with Some _ => _ | None => _ end !! key)
        as [buf |]; [| intros H; inversion H; subst; split; auto].
      destruct (feed buf b) as [[evs rest] |]; [| discriminate].
      intros H; inversion H; subst. split.
      * intros k Hk. cbn [buffer_key] in Hk. inversion Hk. eauto.
      * intros k Hk. rewrite lookup_insert_ne; [now apply Hstart |].
        intros Heq. exact (Hk _ (eq_sym Heq)).
    + destruct (key_set (buffer_key loc)) as [key |] eqn:Hkey;
        [| intros H; inversion H; subst; split; auto].
      destruct (audio_buffers !! key) as [buf |];
        [| intros H; inversion H; subst; split; auto].
      destruct (feed buf b) as [[evs rest] |]; [| discriminate].
      intros H; inversion H; subst. split; [exact Hown |].
      intros k Hk. destruct (key_set_own _ _ Hown Hkey) as (source & ->).
      apply lookup_insert_ne. intros Heq. exact (Hk source (eq_sym Heq)).
Qed.

Lemma receive_foreign (messages : list ws_message) :
  forall (loc : locals) (audio_buffers : gmap str (list Byte.byte)) loc' bufs' acts,
    own_key loc ->
    receive env client_address loc audio_buffers messages = Some (loc', bufs', acts) ->
    own_key loc' /\ forall k, foreign_key k -> bufs' !! k = audio_buffers !! k.
Proof.
  induction messages as [| m ms IH]; intros loc audio_buffers loc' bufs' acts Hown Hrun;
    cbn [receive] in Hrun.
  - inversion Hrun; subst. split; auto.
  - destruct (on_message env client_address loc audio_buffers m)
      as [[[loc1 bufs1] acts1] |] eqn:Hmsg; [| discriminate].
    destruct (receive env client_address loc1 bufs1 ms)
      as [[[loc2 bufs2] acts2] |] eqn:Hrest; [| discriminate].
    inversion Hrun; subst.
    destruct (on_message_foreign _ _ _ _ _ _ Hown Hmsg) as [Hown1 Hsame1].
    destruct (IH _ _ _ _ _ Hown1 Hrest) as [Hown2 Hsame2].
    split; [exact Hown2 |]. intros k Hk. rewrite Hsame2, Hsame1; auto.
Qed.

(** X7.  A connection only ever touches the entries of [audio_buffers] whose
    key is built from its own client address: whatever it receives, from its
    opening to the disconnect, every other entry is left as it was. *)
Theorem handle_websocket_isolation
    (audio_buffers : gmap str (list Byte.byte)) (messages : list ws_message)
    (bufs' : gmap str (list Byte.byte)) (acts : list action) (k : str) :
  handle_websocket env client_address audio_buffers messages = Some (bufs', acts) ->
  (forall source, k <> make_key env client_address source) ->
  bufs' !! k = audio_buffers !! k.
Proof.
  unfold handle_websocket.
  destruct (receive env client_address initial_locals audio_buffers messages)
    as [[[loc bufs] acts0] |] eqn:Hrun; [| discriminate].
  intros H Hk. inversion H; subst.
  assert (Hinit : own_key initial_locals) by (intros key Hkey; discriminate).
  destruct (receive_foreign _ _ _ _ _ _ Hinit Hrun) as [Hown Hsame].
  unfold cleanup.
  destruct (key_set (buffer_key loc)) as [key |] eqn:Hkey; [| now apply Hsame].
  destruct (bufs !! key); [| now apply Hsame].
  destruct (key_set_own _ _ Hown Hkey) as (source & ->).
  rewrite lookup_delete_ne; [now apply Hsame |].
  intros Heq. exact (Hk source (eq_sym Heq)).
Qed.





Lemma on_control_stop (loc : locals) (audio_buffers : gmap str (list Byte.byte)) :
  on_control env client_address loc audio_buffers (PyDict [ (u "type", PyStr (u "stop")) ])
  = Returned (loc, cleanup loc audio_buffers,
              [Send (PyDict [ (u "type", PyStr (u "stopped")) ])]).
Proof. reflexivity. Qed.

(** X9.  Audio that arrives after a [stop] is not buffered and not
    transcribed: with the source of the last [start] still in place but its
    entry deleted, the binary message only makes the server report the
    missing key to the client. *)
Theorem binary_after_stop_is_rejected
    (audio_buffers : gmap str (list Byte.byte))
    (t_start t_stop source : str) (b : list Byte.byte) :
  json_loads env t_start = Returned (start_data source) ->
  json_loads env t_stop = Returned (PyDict [ (u "type", PyStr (u "stop")) ]) ->
  source <> [] ->
  receive env client_address initial_locals audio_buffers
    [TextMessage t_start; TextMessage t_stop; BinaryMessage b]
  = Some ({| source_type := PyStr source;
             buffer_key := Some (make_key env client_address (PyStr source)) |},
          delete (make_key env client_address (PyStr source)) audio_buffers,
          [ Send (PyDict [ (u "type", PyStr (u "started")); (u "source", PyStr source) ]);
            Send (PyDict [ (u "type", PyStr (u "stopped")) ]);
            Send (PyDict [ (u "type", PyStr (u "error"));
                           (u "message",
                            PyStr (py_repr env
                                     (make_key env client_address (PyStr source)))) ])
          ]).
Proof.
  intros Hstart Hstop Hsource.
  cbn [receive on_message].
  rewrite Hstart, on_control_start, Hstop, on_control_stop.
  unfold cleanup. cbn [buffer_key].
  rewrite key_set_make_key, lookup_insert_eq, delete_insert_eq.
  unfold on_binary. cbn [source_type truthy buffer_key].
  assert (Htruthy : negb (str_eqb source []) = true).
  { destruct source; [contradiction | reflexivity]. }
  rewrite Htruthy. cbn [negb buffer_key source_type].
  rewrite key_set_make_key, lookup_delete_eq. reflexivity.
Qed.

(** X10.  A text message that [json.loads] decodes to a value that is not a
    dict is not ignored: nothing changes, but the client is sent an [error]
    message that names the type of the value. *)
Theorem non_object_json_is_reported
    (loc : locals) (audio_buffers : gmap str (list Byte.byte))
    (s : str) (data : pyval) :
  json_loads env s = Returned data ->
  (forall items, data <> PyDict items) ->
  on_message env client_address loc audio_buffers (TextMessage s)
  = Some (loc, audio_buffers,
          [ Send (PyDict [ (u "type", PyStr (u "error"));
                           (u "message",
                            PyStr (u "'" ++ type_name data
                                   ++ u "' object has no attribute 'get'")) ]) ]).
Proof.
  intros Hloads Hdata. unfold on_message. rewrite Hloads.
  unfold on_control.
  destruct data; try reflexivity. now destruct (Hdata items).
Qed.

End SessionTable.

(** X7 at a concrete input: while one client starts a session, streams and
    leaves, the entry of another client stays in place. *)
Lemma handle_websocket_isolation_witness :
  exists bufs' acts,
    handle_websocket quiet_env sample_address {[ u "other_microphone" := silence 10 ]}
      [TextMessage (start_text (u "microphone")); BinaryMessage (silence 49000)]
    = Some (bufs', acts)
    /\ bufs' !! u "other_microphone" = Some (silence 10).
Proof.
  destruct (receive_total quiet_env sample_address
              [TextMessage (start_text (u "microphone")); BinaryMessage (silence 49000)]
              initial_locals {[ u "other_microphone" := silence 10 ]})
    as ([[loc bufs] acts] & Hrun).
  assert (Hrun' : exists acts',
             handle_websocket quiet_env sample_address
               {[ u "other_microphone" := silence 10 ]}
               [TextMessage (start_text (u "microphone")); BinaryMessage (silence 49000)]
             = Some (cleanup loc bufs, acts')).
  { unfold handle_websocket. rewrite Hrun. eauto. }
  destruct Hrun' as (acts' & Hrun').
  exists (cleanup loc bufs), acts'. split; [exact Hrun' |].
  rewrite (handle_websocket_isolation quiet_env sample_address _ _ _ _
             (u "other_microphone") Hrun').
  - apply lookup_singleton_eq.
  - intros source Heq. vm_compute in Heq. discriminate.
Defined.

(** The key of the sample session holds single quotes and no double quote,
    so its [repr] is in double quotes. *)
Lemma sample_key_repr :
  py_repr quiet_env (make_key quiet_env sample_address (PyStr (u "microphone")))
  = dq ++ u "('127.0.0.1', 50432)_microphone" ++ dq.
Proof. vm_compute. reflexivity. Qed.

(** X9 at a concrete input. *)
Lemma binary_after_stop_is_rejected_witness :
  receive quiet_env sample_address initial_locals ∅
    [TextMessage (start_text (u "microphone")); TextMessage stop_text;
     BinaryMessage (silence 49000)]
  = Some ({| source_type := PyStr (u "microphone");
             buffer_key := Some (make_key quiet_env sample_address (PyStr (u "microphone"))) |},
          delete (make_key quiet_env sample_address (PyStr (u "microphone"))) ∅,
          [ Send (PyDict [ (u "type", PyStr (u "started"));
                           (u "source", PyStr (u "microphone")) ]);
            Send (PyDict [ (u "type", PyStr (u "stopped")) ]);
            Send (PyDict [ (u "type", PyStr (u "error"));
                           (u "message",
                            PyStr (py_repr quiet_env
                                     (make_key quiet_env sample_address
                                        (PyStr (u "microphone"))))) ]) ]).
Proof.
  apply (binary_after_stop_is_rejected quiet_env sample_address ∅
           (start_text (u "microphone")) stop_text (u "microphone") (silence 49000)).
  - vm_compute. reflexivity.
  - vm_compute. reflexivity.
  - discriminate.
Defined.

(** X10 at a concrete input: the text [[]]. *)
Lemma non_object_json_is_reported_witness :
  on_message array_env sample_address initial_locals ∅ (TextMessage (u "[]"))
  = Some (initial_locals, ∅,
          [ Send (PyDict [ (u "type", PyStr (u "error"));
                           (u "message",
                            PyStr (u "'list' object has no attribute 'get'")) ]) ]).
Proof.
  apply (non_object_json_is_reported array_env sample_address initial_locals ∅
           (u "[]") (PyList [])).
  - vm_compute. reflexivity.
  - discriminate.
Defined.

(** ** More on the worker and the one-shot path *)

(** X11.  For every chunk [process_audio_chunk] writes exactly one message to
    the websocket, tagged with the chunk's source.  It is either a
    [transcription] whose text is not empty and has no white space around
    it, or an [error]. *)
Theorem process_audio_chunk_one_message
    (env : Env) (source : pyval) (audio_chunk : list Byte.byte) :
  exists calls message,
    process_audio_chunk env source audio_chunk = (calls, [message])
    /\ field message (u "source") = Some source
    /\ ((field message (u "type") = Some (PyStr (u "transcription"))
         /\ exists t lang,
              field message (u "text") = Some (PyStr t)
              /\ t <> [] /\ strip t = t
              /\ field message (u "language") = Some (PyStr lang))
        \/ (field message (u "type") = Some (PyStr (u "error"))
            /\ exists m, field message (u "message") = Some (PyStr m))).
Proof.
  unfold process_audio_chunk.
  destruct (transcribe_audio_chunk env audio_chunk false) as [calls [result | e]] eqn:Hrun.
  - destruct (transcribe_audio_chunk_result _ _ _ _ _ Hrun)
      as [-> | (full_text & lang & -> & Htext & Hstrip)].
    + eexists _, _. cbn. split; [reflexivity |]. split; [reflexivity |].
      right. split; [reflexivity | eauto].
    + cbn [bind]. rewrite !get_text, get_language.
      cbn [bind lift]. rewrite Htext.
      cbn [bind lift strip_method]. rewrite Hstrip, Htext.
      eexists _, _. cbn. split; [reflexivity |]. split; [reflexivity |].
      left. split; [reflexivity |]. exists full_text, lang.
      repeat split; try reflexivity; [| exact Hstrip].
      intros ->. discriminate.
  - eexists _, _. cbn. split; [reflexivity |]. split; [reflexivity |].
    right. split; [reflexivity | eauto].
Qed.

(** X12.  On the one-shot path raw PCM never goes through ffmpeg, and the
    model is called exactly when the payload has at least 2000 bytes and
    fewer than the 4294967260 from which the WAV writer fails: once, on the
    payload cut to a whole number of samples.  Outside that range nothing is
    called. *)
Theorem transcribe_audio_request_pcm_calls (env : Env) (audio_data : list Byte.byte) :
  fst (transcribe_audio_request env audio_data false)
  = if len audio_data <? 2000 then []
    else if WAV_DATA_LIMIT <=? len audio_data then []
    else [CallModel (WaveFile (take (Z.to_nat (2 * (len audio_data / 2))) audio_data))].
Proof.
  unfold transcribe_audio_request. cbn [negb].
  destruct (Z.ltb_spec (len audio_data) 2000) as [Hshort | Hlong]; [reflexivity |].
  unfold transcribe_audio_chunk.
  destruct (Z.leb_spec WAV_DATA_LIMIT (len audio_data)) as [Hhuge | Hfits].
  { rewrite (pcm_bytes_to_wav_too_long _ Hhuge). reflexivity. }
  rewrite (pcm_bytes_to_wav_cut _ (conj Hlong Hfits)).
  cbn [lift bind file_size].
  pose proof (len_nonneg (take (Z.to_nat (2 * (len audio_data / 2))) audio_data)).
  destruct (Z.ltb_spec (44 + len (take (Z.to_nat (2 * (len audio_data / 2))) audio_data)) 44);
    [lia |].
  unfold call_model.
  destruct (model_transcribe env _) as [[[segments | e] info] | e].
  - cbn [bind lift]. destruct (truthy (PyStr (collect_text env segments))); reflexivity.
  - reflexivity.
  - destruct (_ || _); [destruct (wave_open env _) |]; reflexivity.
Qed.

(** X13.  On the one-shot path a WebM payload of at least 1000 bytes is
    handed to ffmpeg exactly once, and the model is called only on the file
    of a successful conversion: exit status 0 and an output of at least 44
    bytes.  In every other case ffmpeg is the only collaborator called and
    the result is a failure.  Below 1000 bytes nothing is called. *)
Theorem transcribe_audio_request_webm_calls (env : Env) (audio_data : list Byte.byte) :
  let calls := fst (transcribe_audio_request env audio_data true) in
  let result := snd (transcribe_audio_request env audio_data true) in
  (len audio_data < 1000 /\ calls = [])
  \/ (1000 <= len audio_data /\ calls = [CallFfmpeg audio_data]
      /\ field result (u "success") = Some (PyBool false))
  \/ (1000 <= len audio_data
      /\ exists r content,
           run_ffmpeg env audio_data = Returned r
           /\ returncode r = 0
           /\ output r = Some content
           /\ 44 <= len content
           /\ calls = [CallFfmpeg audio_data;
                       CallModel (FfmpegFile (wav_path r) content)]).
Proof.
  cbn zeta. unfold transcribe_audio_request. cbn [negb].
  destruct (Z.ltb_spec (len audio_data) 1000) as [Hshort | Hlong];
    [left; split; [exact Hshort | reflexivity] | right].
  unfold transcribe_audio_chunk, convert_webm_to_wav.
  destruct (run_ffmpeg env audio_data) as [r | e] eqn:Hrun;
    [| left; split; [exact Hlong | split; reflexivity]].
  cbn [bind].
  destruct (Z.eqb_spec (returncode r) 0) as [Hcode | Hcode]; cbn [negb];
    [| left; split; [exact Hlong | split; reflexivity]].
  destruct (output r) as [content |] eqn:Hout;
    [| left; split; [exact Hlong | split; reflexivity]].
  destruct (Z.eqb_spec (len content) 0) as [Hempty | Hfull];
    [left; split; [exact Hlong | split; reflexivity] |].
  cbn [ret bind file_size app].
  destruct (Z.ltb_spec (len content) 44) as [Hsmall | Hbig];
    [left; split; [exact Hlong | split; reflexivity] |].
  right. split; [exact Hlong |]. exists r, content.
  repeat (split; [assumption || reflexivity |]).
  unfold call_model.
  destruct (model_transcribe env _) as [[[segments | e] info] | e].
  - cbn [bind lift]. destruct (truthy (PyStr (collect_text env segments))); reflexivity.
  - reflexivity.
  - destruct (_ || _); [destruct (wave_open env _) |]; reflexivity.
Qed.

(** X14.  A request whose [Content-Length] is below -1 never reaches the
    transcription: whatever its body and the collaborators, nothing is
    called and the answer is the error page of status 500, which quotes the
    reader's complaint about the length. *)
Theorem handle_transcribe_negative_length
    (env : Env) (req : request) (in_time : bool) (n : Z) :
  content_length req = Returned n ->
  n < -1 ->
  0 <= maxsize env ->
  handle_transcribe env req in_time
  = ([], SendError 500
           (u "Internal server error: "
            ++ (if n <? - maxsize env - 1
                then u "cannot fit 'int' into an index-sized integer"
                else u "read length must be non-negative or -1"))).
Proof.
  intros Hlength Hneg Hmax. unfold handle_transcribe, read. rewrite Hlength.
  destruct (Z.eqb_spec n 0); [lia |].
  destruct (Z.ltb_spec (maxsize env) n); [lia |]. rewrite orb_false_r.
  destruct (Z.ltb_spec n (- maxsize env - 1)); [reflexivity |].
  destruct (Z.ltb_spec n (-1)); [reflexivity | lia].
Qed.

(** X14 at a concrete input: a length of -5 before ten bytes of body. *)
Lemma handle_transcribe_negative_length_witness :
  handle_transcribe quiet_env
    {| content_type := u "audio/pcm"; content_length := Returned (-5);
       rfile := silence 10 |} true
  = ([], SendError 500
           (u "Internal server error: read length must be non-negative or -1")).
Proof.
  apply (handle_transcribe_negative_length quiet_env
           {| content_type := u "audio/pcm"; content_length := Returned (-5);
              rfile := silence 10 |} true (-5)).
  - reflexivity.
  - lia.
  - vm_compute. discriminate.
Defined.
